(** * VSModManager: a shallow embedding of [vsmodmanager.py]

    The program scans a directory for zip archives, reads the
    [modinfo.json] entry of each one, and lists what it found.  The two
    classes of the source, [Mod] and [ModManager], are embedded as the
    modules of the same names below.

    Conventions of the embedding:
    - a method that only computes is a function into [outcome], the sum of
      a returned value and a raised exception;
    - a method that assigns to [self] or prints is a computation of the
      monad [M], which threads the object and collects the lines written
      to standard output;
    - the file system and the zip and JSON libraries are read through the
      record [filesystem]: what the program observes of them, not how they
      work. *)

From Stdlib Require Import List String Ascii ZArith Bool Lia DecimalString.
From Stdlib Require Import Floats.SpecFloat.
Import ListNotations.
Open Scope string_scope.

Set Implicit Arguments.
Set Warnings "-register-all".

(* ================================================================== *)
(** * Python values *)

(** What [json.loads] can return: [None], [bool], [int], [float], [str],
    [list] and [dict].  A [dict] keeps its items in insertion order and
    its keys are pairwise distinct. *)
Inductive json : Type :=
| JNull
| JBool (b : bool)
| JInt (z : Z)
| JFloat (f : spec_float)
| JStr (s : string)
| JArr (l : list json)
| JObj (items : list (string * json)).

(** A [dict] with [str] keys, as the list of its items in stored order. *)
Definition dict := list (string * json).

(** Lookup of a key; [None] where Python raises [KeyError]. *)
Fixpoint dict_get (d : dict) (k : string) : option json :=
  match d with
  | [] => None
  | (k', v) :: d' => if String.eqb k' k then Some v else dict_get d' k
  end.

(** [d[k] = v]: a key already stored keeps its place and takes the new
    value, a new key goes to the end. *)
Fixpoint dict_set (d : dict) (k : string) (v : json) : dict :=
  match d with
  | [] => [(k, v)]
  | (k', v') :: d' =>
      if String.eqb k' k then (k', v) :: d' else (k', v') :: dict_set d' k v
  end.

Definition keys (d : dict) : list string := map fst d.

(** Truth value of a Python object, as [or] and [not] test it. *)
Definition truthy (v : json) : bool :=
  match v with
  | JNull => false
  | JBool b => b
  | JInt z => negb (Z.eqb z 0)
  | JFloat (S754_zero _) => false
  | JFloat _ => true
  | JStr s => negb (String.eqb s "")
  | JArr l => match l with [] => false | _ => true end
  | JObj l => match l with [] => false | _ => true end
  end.

(** [a or b] *)
Definition py_or (a b : json) : json := if truthy a then a else b.

(** [str.lower].  Python lowercases by the Unicode tables; the embedding
    takes the function as given and the theorems name the facts about it
    they use. *)
Class Lower := lower : string -> string.

(** Lowercasing twice is lowercasing once, and only the empty string
    lowercases to the empty string. *)
Class LowerLaws {L : Lower} : Prop := {
  lower_idem : forall s, lower (lower s) = lower s;
  lower_empty : lower "" = "";
  lower_nonempty : forall s, lower s = "" -> s = ""
}.

(** [str(v)] of a value that is not a [str] ([repr] for lists and dicts,
    the decimal numeral of an [int], and so on), as [format] and f-strings
    insert it. *)
Class Repr := repr : json -> string.

(** What [str.format] and an f-string put in place of a field with no
    format spec: a [str] as it is, any other value through [str()]. *)
Definition format_value {R : Repr} (v : json) : string :=
  match v with
  | JStr s => s
  | _ => repr v
  end.

(** [str.lower] on the ASCII letters, every other character kept: what
    Python does on ASCII strings.  Used for the concrete runs below. *)
Definition ascii_lower_char (c : ascii) : ascii :=
  let n := nat_of_ascii c in
  if (65 <=? n)%nat && (n <=? 90)%nat then ascii_of_nat (n + 32) else c.

Fixpoint ascii_lower (s : string) : string :=
  match s with
  | EmptyString => EmptyString
  | String c s' => String (ascii_lower_char c) (ascii_lower s')
  end.

(** ** Whitespace and tokens

    A character of a string is one of the code points below 256. *)

(** [str.isspace] of one character: tab to carriage return, the four
    separators from 28 to 31, the space, and the code points 133 and 160. *)
Definition isspace (c : ascii) : bool :=
  let n := nat_of_ascii c in
  ((9 <=? n) && (n <=? 13) || (28 <=? n) && (n <=? 32) ||
   (n =? 133) || (n =? 160))%nat.

(** No character of the string is whitespace. *)
Fixpoint no_space (s : string) : bool :=
  match s with
  | EmptyString => true
  | String c s' => negb (isspace c) && no_space s'
  end.

(** Every character of the string is whitespace. *)
Fixpoint all_space (s : string) : bool :=
  match s with
  | EmptyString => true
  | String c s' => isspace c && all_space s'
  end.

(** A word: not empty and without whitespace. *)
Definition is_word (t : string) : Prop := t <> "" /\ no_space t = true.

Fixpoint lstrip (s : string) : string :=
  match s with
  | EmptyString => EmptyString
  | String c s' => if isspace c then lstrip s' else s
  end.

Fixpoint rstrip (s : string) : string :=
  match s with
  | EmptyString => EmptyString
  | String c s' =>
      match rstrip s' with
      | EmptyString => if isspace c then EmptyString else String c EmptyString
      | r => String c r
      end
  end.

(** [s.strip()] *)
Definition strip (s : string) : string := rstrip (lstrip s).

(** The scan of [s.split()], with the word read so far. *)
Fixpoint split_from (word s : string) : list string :=
  match s with
  | EmptyString => if String.eqb word "" then [] else [word]
  | String c s' =>
      if isspace c
      then if String.eqb word "" then split_from "" s'
           else word :: split_from "" s'
      else split_from (word ++ String c EmptyString) s'
  end.

(** [s.split()]: the words between runs of whitespace. *)
Definition split (s : string) : list string := split_from "" s.

(** [sep.join(l)] *)
Definition join (sep : string) (l : list string) : string := String.concat sep l.

(* ================================================================== *)
(** * Exceptions and outcomes *)

Definition path := string.

(** The exceptions the program can meet: those it raises itself through
    a missing key or attribute, and those of the libraries it calls, the
    last one standing for any class not named here. *)
Inductive exn : Type :=
| OSError (p : path)
| BadZipFile (p : path)
| KeyError (k : string)
| JSONDecodeError
| AttributeError (attr : string)
| UnicodeDecodeError
| RecursionError
| RuntimeError (msg : string)
| OtherError (name : string).

Inductive outcome (A : Type) : Type :=
| Return (a : A)
| Raise (e : exn).
Arguments Return {A} a.
Arguments Raise {A} e.

Definition obind {A B} (o : outcome A) (f : A -> outcome B) : outcome B :=
  match o with
  | Return a => f a
  | Raise e => Raise e
  end.

Declare Scope outcome_scope.
Delimit Scope outcome_scope with outcome.
Notation "'let?' x ':=' e 'in' k" := (obind e (fun x => k))
  (at level 10, x pattern, e at level 100, k at level 200) : outcome_scope.
Open Scope outcome_scope.

(** [try: e  except Exception: return d] *)
Definition try_except {A} (e : outcome A) (d : A) : outcome A :=
  match e with
  | Return a => Return a
  | Raise _ => Return d
  end.

(** A list comprehension [[f x for x in l]]: left to right, the first
    exception ends it. *)
Fixpoint mapM {A B} (f : A -> outcome B) (l : list A) : outcome (list B) :=
  match l with
  | [] => Return []
  | x :: l' =>
      let? y := f x in
      let? ys := mapM f l' in
      Return (y :: ys)
  end.

(** A list comprehension [[x for x in l if c x]]. *)
Fixpoint filterM {A} (c : A -> outcome bool) (l : list A) : outcome (list A) :=
  match l with
  | [] => Return []
  | x :: l' =>
      let? b := c x in
      let? ys := filterM c l' in
      Return (if b then x :: ys else ys)
  end.

(** ** Methods with effects

    A method run on an object [s] ends with an outcome, the object as it
    is afterwards, and the lines it printed. *)
Record run (S A : Type) : Type := Run {
  result : outcome A;
  state : S;
  stdout : list string
}.

Definition M (S A : Type) : Type := S -> run S A.

Definition ret {S A} (a : A) : M S A := fun s => Run (Return a) s [].

Definition bind {S A B} (m : M S A) (f : A -> M S B) : M S B := fun s =>
  let r := m s in
  match result r with
  | Return a =>
      let r' := f a (state r) in
      Run (result r') (state r') (stdout r ++ stdout r')
  | Raise e => Run (Raise e) (state r) (stdout r)
  end.

(** [self] *)
Definition get {S} : M S S := fun s => Run (Return s) s [].

(** An assignment to attributes of [self]. *)
Definition modify {S} (f : S -> S) : M S unit := fun s => Run (Return tt) (f s) [].

(** [print(line)] *)
Definition print {S} (line : string) : M S unit := fun s => Run (Return tt) s [line].

(** A computation without effects, inside a method. *)
Definition lift {S A} (o : outcome A) : M S A := fun s => Run o s [].

(** [for x in l: body(x)] *)
Fixpoint for_each {S A} (l : list A) (body : A -> M S unit) : M S unit :=
  match l with
  | [] => fun s => Run (Return tt) s []
  | x :: l' => fun s =>
      let r := body x s in
      match result r with
      | Return _ =>
          let r' := for_each l' body (state r) in
          Run (result r') (state r') (stdout r ++ stdout r')
      | Raise e => Run (Raise e) (state r) (stdout r)
      end
  end.

(** [o.method()] inside a method of another object: the outcome of the
    call and the lines it prints.  The methods called this way are the two
    presentation methods of a record, which assign nothing to it; the
    caller's own attributes are not in their reach. *)
Definition call {S O A} (o : O) (method : M O A) : M S A := fun s =>
  let r := method o in Run (result r) s (stdout r).

Declare Scope method_scope.
Delimit Scope method_scope with method.
Notation "x <- e ;; k" := (bind e (fun x => k))
  (at level 100, e at next level, right associativity) : method_scope.
Notation "e ;; k" := (bind e (fun _ => k))
  (at level 100, right associativity) : method_scope.
Open Scope method_scope.

Unset Implicit Arguments.

(* ================================================================== *)
(** * The file system, zip archives and JSON texts *)

(** An entry of an archive, seen through what [archive.read(name)] and
    [json.loads(bytes.strip())] make of it:
    - [Json v]: the bytes are read and parse to [v];
    - [Unparsed e]: the bytes are read and [json.loads] raises [e] on
      them ([JSONDecodeError] on a text that is no JSON,
      [UnicodeDecodeError] on bytes in no encoding it knows,
      [RecursionError] on a text nested too deep);
    - [Unread e]: [read] raises [e] ([RuntimeError] on an encrypted entry,
      [BadZipFile] on a wrong checksum, and so on). *)
Inductive blob : Type :=
| Json (v : json)
| Unparsed (e : exn)
| Unread (e : exn).

(** An open [zipfile.ZipFile]: the entry stored under each name. *)
Definition zip := string -> option blob.

(** What lies at a path: nothing; something that is no zip file (a
    directory among them); a zip file that opens; or a file in which
    [is_zipfile] finds the end record of a zip file and which [ZipFile]
    fails to open with [e]. *)
Inductive file : Type :=
| NoFile
| NotZip
| Zip (z : zip)
| BrokenZip (e : exn).

(** [iterdir] is [Path.iterdir]: the entries of a directory in the order
    the system gives them, or the [OSError] of a directory that cannot be
    read. *)
Record filesystem : Type := {
  iterdir : path -> outcome (list path);
  file_at : path -> file
}.

(** [zipfile.is_zipfile(f)]: false for what is missing, is a directory, or
    is no zip file. *)
Definition is_zipfile (fs : filesystem) (f : path) : bool :=
  match file_at fs f with
  | Zip _ | BrokenZip _ => true
  | _ => false
  end.

(** [zipfile.ZipFile(f, 'r')] *)
Definition ZipFile (fs : filesystem) (f : path) : outcome zip :=
  match file_at fs f with
  | Zip z => Return z
  | BrokenZip e => Raise e
  | NotZip => Raise (BadZipFile f)
  | NoFile => Raise (OSError f)
  end.

(** [archive.read(name).strip()] *)
Definition zip_read (z : zip) (name : string) : outcome blob :=
  match z name with
  | Some (Unread e) => Raise e
  | Some b => Return b
  | None => Raise (KeyError name)
  end.

(** [json.loads(s)], for bytes that were read. *)
Definition json_loads (s : blob) : outcome json :=
  match s with
  | Json v => Return v
  | Unparsed e | Unread e => Raise e
  end.

(** [v.items()]: only a [dict] has the method. *)
Definition items (v : json) : outcome (list (string * json)) :=
  match v with
  | JObj l => Return l
  | _ => Raise (AttributeError "items")
  end.

(** [v.lower()]: only a [str] has the method. *)
Definition str_lower {L : Lower} (v : json) : outcome string :=
  match v with
  | JStr s => Return (lower s)
  | _ => Raise (AttributeError "lower")
  end.

(** [d[k]] *)
Definition getitem (d : dict) (k : string) : outcome json :=
  match dict_get d k with
  | Some v => Return v
  | None => Raise (KeyError k)
  end.

(** [x in t] for a tuple of strings [t]. *)
Definition str_in (x : string) (t : list string) : bool :=
  existsb (String.eqb x) t.

(** [p / name], for a path in the form [pathlib] keeps it: the two roots
    [/] and [//] end in their slash, the empty path reads [.], and no
    other path ends in a slash. *)
Definition joinpath (p : path) (name : string) : path :=
  if String.eqb p "/" || String.eqb p "//" then p ++ name
  else if String.eqb p "." then name
  else p ++ "/" ++ name.

Definition dquote : string := String (ascii_of_nat 34) EmptyString.

(* ================================================================== *)
(** * class Mod *)

Module Mod.

(** The attributes [__init__] and [_parse_archive] set. *)
Record t : Type := {
  archive : path;
  _modinfo_string : blob;
  _modinfo_raw : dict;
  modinfo : dict
}.

Section Methods.
Context {L : Lower} {R : Repr}.

(** [{k.lower(): v for k, v in raw.items()}] *)
Definition lower_keys (raw : list (string * json)) : dict :=
  fold_left (fun d kv => dict_set d (lower (fst kv)) (snd kv)) raw [].

(** [_parse_archive]: the three attributes it assigns, in the order of
    the assignments. *)
Definition _parse_archive (fs : filesystem) (archive : path)
  : outcome (blob * dict * dict) :=
  let? z := ZipFile fs archive in
  let? _modinfo_string := zip_read z "modinfo.json" in
  let? v := json_loads _modinfo_string in
  let? _modinfo_raw := items v in
  Return (_modinfo_string, _modinfo_raw, lower_keys _modinfo_raw).

(** [Mod(archive)] *)
Definition __init__ (fs : filesystem) (archive : path) : outcome t :=
  let? parsed := _parse_archive fs archive in
  let '(s, raw, info) := parsed in
  Return {| archive := archive; _modinfo_string := s;
            _modinfo_raw := raw; modinfo := info |}.

(** [__getattr__]: what [self.<name>] gives for a name that is no
    attribute of the object or of the class, such as [name], [modid],
    [version] and [description]. *)
Definition __getattr__ (self : t) (name : string) : outcome json :=
  try_except (getitem (modinfo self) name) (JStr "").

Definition print_default : M t unit :=
  self <- get ;;
  name <- lift (__getattr__ self "name") ;;
  modid <- lift (__getattr__ self "modid") ;;
  version <- lift (__getattr__ self "version") ;;
  description <- lift (__getattr__ self "description") ;;
  print (format_value (py_or name (JStr "UNKNOWN")) ++ " (" ++
         format_value (py_or modid (JStr "ModID unknown")) ++ ") [" ++
         format_value (py_or version (JStr "Version unknown")) ++ "] - " ++
         format_value (py_or description (JStr "No description"))).

(** The loop of [print_all] over [self.modinfo.items()]. *)
Fixpoint print_items (l : list (string * json)) : M t unit :=
  match l with
  | [] => ret tt
  | (k, v) :: l' => print (k ++ ": " ++ format_value v) ;; print_items l'
  end.

Definition print_all : M t unit :=
  self <- get ;;
  print ("Mod located at " ++ dquote ++ archive self ++ dquote ++ ":") ;;
  print "" ;;
  print_items (modinfo self).

(** The three methods whose body is [pass] or a docstring alone: they
    return [None]. *)
Definition _check_update : M t unit := ret tt.

Definition remove : M t unit := ret tt.

Definition update (version : json) : M t unit := ret tt.

End Methods.
End Mod.

(* ================================================================== *)
(** * class ModManager *)

Module ModManager.

(** [mods] is declared on the class as [[]]: an object reads that list
    until [_mods_refresh] assigns its own. *)
Record t : Type := {
  data_path : path;
  mods_path : path;
  mods : list Mod.t
}.

Definition data_path_default : path := "/var/vintagestory/data".

Definition set_mods (l : list Mod.t) (self : t) : t :=
  {| data_path := data_path self; mods_path := mods_path self; mods := l |}.

Section Methods.
Context {L : Lower}.

(** [_mods_refresh]: the two list comprehensions, then the assignment. *)
Definition _mods_refresh (fs : filesystem) : M t unit :=
  self <- get ;;
  mod_archives <- lift (let? entries := iterdir fs (mods_path self) in
                        Return (filter (is_zipfile fs) entries)) ;;
  new_mods <- lift (mapM (Mod.__init__ fs) mod_archives) ;;
  modify (set_mods new_mods).

(** [ModManager(data_path)]; [None] stands for the argument left out. *)
Definition __init__ (fs : filesystem) (data_path : option path) : outcome t :=
  let data_path := match data_path with
                   | Some p => p
                   | None => data_path_default
                   end in
  let self := {| data_path := data_path;
                 mods_path := joinpath data_path "Mods";
                 mods := [] |} in
  let r := _mods_refresh fs self in
  let? _ := result r in
  Return (state r).

(** The condition of the comprehension in [_mods_get]:
    [modid in (mod.name.lower(), mod.modid.lower())], with [m] for [mod]. *)
Definition matches (modid : string) (m : Mod.t) : outcome bool :=
  let? name := Mod.__getattr__ m "name" in
  let? name_lower := str_lower name in
  let? id := Mod.__getattr__ m "modid" in
  let? id_lower := str_lower id in
  Return (str_in modid [name_lower; id_lower]).

Definition _mods_get (modid : string) : M t (list Mod.t) :=
  self <- get ;;
  let modid := lower modid in
  lift (filterM (matches modid) (mods self)).

Context {R : Repr}.

Definition mods_lists : M t unit :=
  self <- get ;;
  for_each (mods self) (fun m => call m Mod.print_default).

Definition mod_list (modid : string) : M t unit :=
  found <- _mods_get modid ;;
  for_each found (fun m => call m Mod.print_all).

(** The two methods whose body is [pass]: they return [None]. *)
Definition mod_install : M t unit := ret tt.

Definition mod_remove (modid : string) : M t unit := ret tt.

End Methods.
End ModManager.

(* ================================================================== *)
(** * The command loop *)

Definition helptext : string := "VSModManager commands
list [name]
    - list all available mods or information about a single one".

(** What one call of [session.prompt('> ')] gives: a line, or the
    [KeyboardInterrupt] of the user.  A session is the list of these up to
    the [EOFError] that ends it.  The prompt text is written by the prompt
    library, not by [print], and is no part of [stdout]. *)
Inductive prompt : Type :=
| Line (s : string)
| Interrupt.

Section Main.
Context {L : Lower} {R : Repr}.

(** The body of the loop after the prompt, on the tokens [cmd] of the
    line. *)
Definition command (cmd : list string) : M ModManager.t unit :=
  match cmd with
  | [] => print helptext
  | cmd_main :: args =>
      if String.eqb cmd_main "list" then
        match args with
        | _ :: _ => ModManager.mod_list (join " " args)
        | [] => ModManager.mods_lists
        end
      else print helptext
  end.

(** [session.prompt('> ').lower().strip().split()] on a line. *)
Definition tokens (s : string) : list string := split (strip (lower s)).

(** The [while True] loop, run on [modmanager]. *)
Fixpoint loop (session : list prompt) : M ModManager.t unit :=
  match session with
  | [] => ret tt
  | Interrupt :: rest => loop rest
  | Line s :: rest => command (tokens s) ;; loop rest
  end.

(** The program: the manager on the default directory, the loop, and the
    last line.  [PromptSession()] is taken to return. *)
Definition main (fs : filesystem) (session : list prompt) : run unit unit :=
  match ModManager.__init__ fs None with
  | Raise e => Run (Raise e) tt []
  | Return modmanager =>
      let r := (loop session ;; print "Exiting VSModManager...") modmanager in
      Run (result r) tt (stdout r)
  end.

End Main.

(* ================================================================== *)
(** * Predicates of the specification *)

Section Readings.
Context {L : Lower} {R : Repr}.

(** The value of the last item of [raw] whose key lowercases to [k]. *)
Fixpoint last_binding (raw : list (string * json)) (k : string) : option json :=
  match raw with
  | [] => None
  | (k', v) :: raw' =>
      match last_binding raw' k with
      | Some w => Some w
      | None => if String.eqb (lower k') k then Some v else None
      end
  end.

(** A valid mod archive: a zip file whose [modinfo.json] holds a JSON
    object. *)
Definition is_valid_archive (fs : filesystem) (f : path) : bool :=
  match file_at fs f with
  | Zip z =>
      match z "modinfo.json" with
      | Some (Json (JObj _)) => true
      | _ => false
      end
  | _ => false
  end.

(** The key is missing from the metadata or stored with a [str]. *)
Definition str_or_absent (m : Mod.t) (key : string) : bool :=
  match dict_get (Mod.modinfo m) key with
  | Some (JStr _) | None => true
  | Some _ => false
  end.

(** The key is missing from the metadata or stored with the empty [str]. *)
Definition absent_or_empty (m : Mod.t) (key : string) : bool :=
  match dict_get (Mod.modinfo m) key with
  | Some (JStr s) => String.eqb s ""
  | None => true
  | Some _ => false
  end.

(** The text of a field as the lookup compares it: the [str] that
    [m.<key>] gives. *)
Definition text_of (m : Mod.t) (key : string) : string :=
  match Mod.__getattr__ m key with
  | Return (JStr s) => s
  | _ => ""
  end.

(** Equality of two strings under case-insensitive comparison. *)
Definition same_ignoring_case (a b : string) : bool :=
  String.eqb (lower a) (lower b).

(** The records a query selects: those whose name or mod-id equals it
    under case-insensitive comparison. *)
Definition selected (q : string) (m : Mod.t) : bool :=
  same_ignoring_case q (text_of m "name") || same_ignoring_case q (text_of m "modid").

(** Both fields the lookup reads are strings where the record has them. *)
Definition str_fields (m : Mod.t) : Prop :=
  str_or_absent m "name" = true /\ str_or_absent m "modid" = true.

(** What the summary line shows for a field: the placeholder for a key
    that is missing or stored with a false value (the empty string among
    them), the stored value otherwise. *)
Definition summary_field (m : Mod.t) (key placeholder : string) : string :=
  match dict_get (Mod.modinfo m) key with
  | Some v => if truthy v then format_value v else placeholder
  | None => placeholder
  end.

(** The line of the default summary. *)
Definition summary_line (m : Mod.t) : string :=
  summary_field m "name" "UNKNOWN" ++ " (" ++
  summary_field m "modid" "ModID unknown" ++ ") [" ++
  summary_field m "version" "Version unknown" ++ "] - " ++
  summary_field m "description" "No description".

(** The lines of the full dump. *)
Definition dump_lines (m : Mod.t) : list string :=
  ("Mod located at " ++ dquote ++ Mod.archive m ++ dquote ++ ":")
  :: "" :: map (fun kv => fst kv ++ ": " ++ format_value (snd kv)) (Mod.modinfo m).

(** The key is missing from the metadata or stored with a false value:
    [None], [False], a zero, or an empty string, list or dict. *)
Definition absent_or_false (m : Mod.t) (key : string) : Prop :=
  match dict_get (Mod.modinfo m) key with
  | None => True
  | Some v =>
      v = JNull \/ v = JBool false \/ v = JInt 0 \/
      (exists sign, v = JFloat (S754_zero sign)) \/
      v = JStr "" \/ v = JArr [] \/ v = JObj []
  end.

(** The elements of [l] in order, each at its first occurrence only;
    [seen] holds what has occurred before. *)
Fixpoint first_occurrences (seen l : list string) : list string :=
  match l with
  | [] => []
  | x :: l' =>
      if existsb (String.eqb x) seen then first_occurrences seen l'
      else x :: first_occurrences (seen ++ [x])%list l'
  end.

(** The data directory of a manager built with the argument [dp]. *)
Definition root_of (dp : option path) : path :=
  match dp with
  | Some p => p
  | None => ModManager.data_path_default
  end.

(** A record a scan can hold: the one its own archive gives, with keys
    that are pairwise distinct and their own lowercase form. *)
Definition scanned (fs : filesystem) (m : Mod.t) : Prop :=
  is_zipfile fs (Mod.archive m) = true /\
  Mod.__init__ fs (Mod.archive m) = Return m /\
  NoDup (keys (Mod.modinfo m)) /\
  Forall (fun k => lower k = k) (keys (Mod.modinfo m)).

(** The tokens are a [list] command with a query. *)
Definition is_query (cmd : list string) : bool :=
  match cmd with
  | cmd_main :: _ :: _ => String.eqb cmd_main "list"
  | _ => false
  end.

(** A prompt that gives no [list] command with a query. *)
Definition no_query (i : prompt) : Prop :=
  match i with
  | Line s => is_query (tokens s) = false
  | Interrupt => True
  end.

(** What one prompt of a session makes the loop print on [mm]. *)
Definition printed (mm : ModManager.t) (i : prompt) : list string :=
  match i with
  | Line s => stdout (command (tokens s) mm)
  | Interrupt => []
  end.

End Readings.

(* ================================================================== *)
(** * Sample archives and directories *)

(** The concrete [str.lower] of the runs below. *)
#[export] Instance ascii_Lower : Lower := ascii_lower.

(** [str()] of [None], of a [bool] and of an [int]; the runs below print
    no [float], [list] or [dict], for which it gives the empty string. *)
Definition plain_Repr : Repr := fun v =>
  match v with
  | JNull => "None"
  | JBool true => "True"
  | JBool false => "False"
  | JInt z => NilZero.string_of_int (Z.to_int z)
  | JStr s => s
  | _ => ""
  end.

(** An archive whose only entry is [modinfo.json]. *)
Definition zip_with (b : blob) : zip :=
  fun name => if String.eqb name "modinfo.json" then Some b else None.

(** An archive without [modinfo.json]. *)
Definition zip_without : zip := fun _ => None.

Definition modinfo_a : list (string * json) :=
  [("Name", JStr "Test Mod"); ("ModID", JStr "testmod");
   ("Version", JStr "1.0.0"); ("Description", JStr "A test")].

Definition modinfo_b : list (string * json) := [("ModID", JStr "bare")].

Definition mods_dir : path := "/var/vintagestory/data/Mods".
Definition a_zip : path := "/var/vintagestory/data/Mods/a.zip".
Definition b_zip : path := "/var/vintagestory/data/Mods/b.zip".
Definition c_zip : path := "/var/vintagestory/data/Mods/c.zip".
Definition notes_txt : path := "/var/vintagestory/data/Mods/notes.txt".

(** A directory with [entries], where [a.zip] and [b.zip] are the two
    archives of the scenarios, [notes.txt] is no zip file and [c.zip]
    holds [c]. *)
Definition sample_fs (entries : list path) (c : file) : filesystem := {|
  iterdir := fun p =>
    if String.eqb p mods_dir then Return entries else Raise (OSError p);
  file_at := fun p =>
    if String.eqb p a_zip then Zip (zip_with (Json (JObj modinfo_a)))
    else if String.eqb p b_zip then Zip (zip_with (Json (JObj modinfo_b)))
    else if String.eqb p c_zip then c
    else if String.eqb p notes_txt then NotZip
    else NoFile
|}.

Definition mod_a : Mod.t := {|
  Mod.archive := a_zip;
  Mod._modinfo_string := Json (JObj modinfo_a);
  Mod._modinfo_raw := modinfo_a;
  Mod.modinfo :=
    [("name", JStr "Test Mod"); ("modid", JStr "testmod");
     ("version", JStr "1.0.0"); ("description", JStr "A test")]
|}.

Definition mod_b : Mod.t := {|
  Mod.archive := b_zip;
  Mod._modinfo_string := Json (JObj modinfo_b);
  Mod._modinfo_raw := modinfo_b;
  Mod.modinfo := [("modid", JStr "bare")]
|}.

(** A [modinfo.json] that gives the name as a number. *)
Definition modinfo_numeric : list (string * json) :=
  [("Name", JInt 5); ("ModID", JStr "x")].

Definition mod_numeric : Mod.t := {|
  Mod.archive := c_zip;
  Mod._modinfo_string := Json (JObj modinfo_numeric);
  Mod._modinfo_raw := modinfo_numeric;
  Mod.modinfo := [("name", JInt 5); ("modid", JStr "x")]
|}.

(** A [modinfo.json] whose text is the JSON list [[1]]. *)
Definition modinfo_list : blob := Json (JArr [JInt 1]).

(** A [modinfo.json] with two keys of one lowercase form. *)
Definition modinfo_clash : list (string * json) := [("A", JInt 1); ("a", JInt 2)].

(** A record whose name is empty, whose mod-id is [null], whose version
    is the number 0 and which has no description. *)
Definition mod_false : Mod.t := {|
  Mod.archive := c_zip;
  Mod._modinfo_string :=
    Json (JObj [("Name", JStr ""); ("ModID", JNull); ("Version", JInt 0)]);
  Mod._modinfo_raw := [("Name", JStr ""); ("ModID", JNull); ("Version", JInt 0)];
  Mod.modinfo := [("name", JStr ""); ("modid", JNull); ("version", JInt 0)]
|}.

(** A manager on the default directory holding [l]. *)
Definition manager_with (l : list Mod.t) : ModManager.t := {|
  ModManager.data_path := ModManager.data_path_default;
  ModManager.mods_path := mods_dir;
  ModManager.mods := l
|}.

(* ================================================================== *)
(** * Dictionaries *)

Lemma dict_get_set_same (d : dict) (k : string) (v : json) :
  dict_get (dict_set d k v) k = Some v.
Proof.
  induction d as [|[k' v'] d IH]; simpl.
  - now rewrite String.eqb_refl.
  - destruct (String.eqb k' k) eqn:E; simpl; rewrite E; auto.
Qed.

Lemma dict_get_set_other (d : dict) (k k' : string) (v : json) :
  k <> k' -> dict_get (dict_set d k v) k' = dict_get d k'.
Proof.
  intros Hne. induction d as [|[k0 v0] d IH]; simpl.
  - apply String.eqb_neq in Hne. now rewrite Hne.
  - destruct (String.eqb k0 k) eqn:E; simpl.
    + apply String.eqb_eq in E. subst k0.
      apply String.eqb_neq in Hne. now rewrite Hne.
    + now rewrite IH.
Qed.

Lemma dict_get_none (d : dict) (k : string) :
  dict_get d k = None <-> ~ In k (keys d).
Proof.
  induction d as [|[k' v'] d IH]; simpl.
  - tauto.
  - destruct (String.eqb k' k) eqn:E.
    + apply String.eqb_eq in E. split; [discriminate | intros H; exfalso; auto].
    + apply String.eqb_neq in E. rewrite IH. tauto.
Qed.

Lemma dict_get_in (d : dict) (k : string) (v : json) :
  dict_get d k = Some v -> In (k, v) d.
Proof.
  induction d as [|[k' v'] d IH]; simpl; [discriminate|].
  destruct (String.eqb k' k) eqn:E.
  - apply String.eqb_eq in E. intros [= ->]. subst. now left.
  - auto.
Qed.

Lemma dict_set_new (d : dict) (k : string) (v : json) :
  ~ In k (keys d) -> dict_set d k v = (d ++ [(k, v)])%list.
Proof.
  induction d as [|[k' v'] d IH]; simpl; intros Hn; [reflexivity|].
  destruct (String.eqb k' k) eqn:E.
  - apply String.eqb_eq in E. exfalso; auto.
  - rewrite IH; auto.
Qed.

Lemma keys_dict_set (d : dict) (k : string) (v : json) :
  keys (dict_set d k v) =
  match dict_get d k with Some _ => keys d | None => (keys d ++ [k])%list end.
Proof.
  induction d as [|[k' v'] d IH]; simpl; [reflexivity|].
  destruct (String.eqb k' k) eqn:E; simpl; [reflexivity|].
  rewrite IH. now destruct (dict_get d k).
Qed.

Lemma NoDup_keys_dict_set (d : dict) (k : string) (v : json) :
  NoDup (keys d) -> NoDup (keys (dict_set d k v)).
Proof.
  intros Hd. rewrite keys_dict_set.
  destruct (dict_get d k) eqn:E; [assumption|].
  apply dict_get_none in E.
  apply NoDup_app; [assumption | constructor; [simpl; tauto | constructor] |].
  intros x Hx [<-|[]]. auto.
Qed.

(* ================================================================== *)
(** * Lowercased keys *)

Section LowerKeys.
Context {L : Lower}.

Lemma dict_get_fold_lower (raw : list (string * json)) :
  forall (d : dict) (k : string),
    dict_get (fold_left (fun d kv => dict_set d (lower (fst kv)) (snd kv)) raw d) k =
    match last_binding raw k with
    | Some v => Some v
    | None => dict_get d k
    end.
Proof.
  induction raw as [|[k' v] raw IH]; intros d k; simpl; [reflexivity|].
  rewrite IH. destruct (last_binding raw k); [reflexivity|].
  destruct (String.eqb (lower k') k) eqn:E.
  - apply String.eqb_eq in E. subst k. apply dict_get_set_same.
  - apply String.eqb_neq in E. now apply dict_get_set_other.
Qed.

Lemma dict_get_lower_keys (raw : list (string * json)) (k : string) :
  dict_get (Mod.lower_keys raw) k = last_binding raw k.
Proof.
  unfold Mod.lower_keys. rewrite dict_get_fold_lower. simpl.
  now destruct (last_binding raw k).
Qed.

Lemma last_binding_in (raw : list (string * json)) (k : string) (v : json) :
  last_binding raw k = Some v -> exists k', In (k', v) raw /\ lower k' = k.
Proof.
  induction raw as [|[k0 v0] raw IH]; simpl; [discriminate|].
  destruct (last_binding raw k) as [w|] eqn:E.
  - intros [= ->]. destruct (IH eq_refl) as (k' & Hin & Hk). eauto.
  - destruct (String.eqb (lower k0) k) eqn:E0; [|discriminate].
    apply String.eqb_eq in E0. intros [= ->]. eauto.
Qed.

Lemma last_binding_unique (raw : list (string * json)) (k : string) (v : json) :
  In (k, v) raw ->
  (forall k' v', In (k', v') raw -> lower k' = lower k -> v' = v) ->
  last_binding raw (lower k) = Some v.
Proof.
  induction raw as [|[k0 v0] raw IH]; simpl; [tauto|].
  intros Hin Hsame.
  destruct (last_binding raw (lower k)) as [w|] eqn:E.
  - apply last_binding_in in E. destruct E as (k' & Hin' & Hk).
    f_equal. eauto.
  - destruct Hin as [Heq|Hin].
    + injection Heq as -> ->. now rewrite String.eqb_refl.
    + assert (None = Some v) as Habs by (apply IH; eauto).
      discriminate.
Qed.

Lemma NoDup_keys_fold_lower (raw : list (string * json)) :
  forall d : dict,
    NoDup (keys d) ->
    NoDup (keys (fold_left (fun d kv => dict_set d (lower (fst kv)) (snd kv)) raw d)).
Proof.
  induction raw as [|[k v] raw IH]; intros d Hd; simpl; [assumption|].
  apply IH. now apply NoDup_keys_dict_set.
Qed.

Lemma fold_lower_distinct (raw : list (string * json)) :
  forall d : dict,
    NoDup (keys d ++ map lower (keys raw))%list ->
    fold_left (fun d kv => dict_set d (lower (fst kv)) (snd kv)) raw d =
    (d ++ map (fun kv => (lower (fst kv), snd kv)) raw)%list.
Proof.
  induction raw as [|[k v] raw IH]; intros d Hd; simpl.
  - now rewrite app_nil_r.
  - simpl in Hd. rewrite dict_set_new.
    + rewrite IH.
      * now rewrite <- app_assoc.
      * unfold keys in *. rewrite map_app, <- app_assoc. exact Hd.
    + apply NoDup_remove_2 in Hd. intros Hin. apply Hd.
      apply in_or_app. now left.
Qed.

(** A record that [Mod(archive)] returns, and the archive it came from. *)
Lemma init_return (fs : filesystem) (p : path) (m : Mod.t) :
  Mod.__init__ fs p = Return m <->
  exists z raw,
    file_at fs p = Zip z /\
    z "modinfo.json" = Some (Json (JObj raw)) /\
    m = {| Mod.archive := p; Mod._modinfo_string := Json (JObj raw);
           Mod._modinfo_raw := raw; Mod.modinfo := Mod.lower_keys raw |}.
Proof.
  unfold Mod.__init__, Mod._parse_archive, ZipFile, zip_read, json_loads, items.
  split.
  - destruct (file_at fs p) as [| |z|e]; simpl; try discriminate.
    destruct (z "modinfo.json") as [[v|e|e]|] eqn:Ez; simpl; try discriminate.
    destruct v as [| | | | | |raw]; simpl; try discriminate.
    intros [= <-]. exists z, raw. auto.
  - intros (z & raw & -> & Hz & ->). simpl. now rewrite Hz.
Qed.

Lemma init_valid (fs : filesystem) (p : path) :
  is_valid_archive fs p = true <-> exists m, Mod.__init__ fs p = Return m.
Proof.
  unfold is_valid_archive. split.
  - destruct (file_at fs p) as [| |z|e] eqn:Ef; try discriminate.
    destruct (z "modinfo.json") as [[v|e|e]|] eqn:Ez; try discriminate.
    destruct v; try discriminate. intros _.
    eexists. apply init_return. eauto.
  - intros [m Hm]. apply init_return in Hm.
    destruct Hm as (z & raw & -> & -> & _). reflexivity.
Qed.


End LowerKeys.

(* ================================================================== *)
(** * List comprehensions *)

Lemma mapM_return {A B} (f : A -> outcome B) (l : list A) (ys : list B) :
  mapM f l = Return ys <-> Forall2 (fun x y => f x = Return y) l ys.
Proof.
  revert ys. induction l as [|x l IH]; intros ys; simpl.
  - split; [intros [= <-]; constructor | now inversion 1].
  - split.
    + destruct (f x) as [y|] eqn:Ex; simpl; [|discriminate].
      destruct (mapM f l) as [zs|] eqn:El; simpl; [|discriminate].
      intros [= <-]. constructor; [assumption | now apply IH].
    + inversion 1 as [|? y ? zs Hx Hl]; subst. rewrite Hx. simpl.
      apply IH in Hl. now rewrite Hl.
Qed.

Lemma mapM_total {A B} (f : A -> outcome B) (l : list A) :
  (forall x, In x l -> exists y, f x = Return y) ->
  exists ys, mapM f l = Return ys.
Proof.
  induction l as [|x l IH]; intros Hall; simpl; [eauto|].
  destruct (Hall x (or_introl eq_refl)) as [y ->]. simpl.
  destruct IH as [ys ->]; [intros; apply Hall; now right|].
  simpl. eauto.
Qed.

Lemma mapM_raise {A B} (f : A -> outcome B) (l : list A) (x : A) (e0 : exn) :
  In x l -> f x = Raise e0 -> exists e, mapM f l = Raise e.
Proof.
  induction l as [|a l IH]; simpl; [tauto|].
  intros Hin Hx. destruct (f a) as [y|e] eqn:Ea; simpl; [|eauto].
  destruct Hin as [->|Hin]; [congruence|].
  destruct (IH Hin Hx) as [e ->]. simpl. eauto.
Qed.

Lemma filterM_total {A} (c : A -> outcome bool) (b : A -> bool) (l : list A) :
  (forall x, In x l -> c x = Return (b x)) ->
  filterM c l = Return (filter b l).
Proof.
  induction l as [|x l IH]; intros Hall; simpl; [reflexivity|].
  rewrite (Hall x (or_introl eq_refl)). simpl.
  rewrite IH by (intros; apply Hall; now right). reflexivity.
Qed.

(** A comprehension whose condition can only raise [e] raises [e] as soon
    as the condition raises on one element. *)
Lemma filterM_raise {A} (c : A -> outcome bool) (l : list A) (x : A) (e : exn) :
  (forall y e', In y l -> c y = Raise e' -> e' = e) ->
  In x l -> c x = Raise e -> filterM c l = Raise e.
Proof.
  induction l as [|a l IH]; simpl; [tauto|].
  intros Hsame Hin Hx. destruct (c a) as [y|e'] eqn:Ea; simpl.
  - destruct Hin as [->|Hin]; [congruence|].
    rewrite IH; auto.
    intros y0 e' Hy He. exact (Hsame y0 e' (or_intror Hy) He).
  - f_equal. exact (Hsame a e' (or_introl eq_refl) Ea).
Qed.

(* ================================================================== *)
(** * [str.lower] on ASCII strings *)

Lemma ascii_lower_char_idem (c : ascii) :
  ascii_lower_char (ascii_lower_char c) = ascii_lower_char c.
Proof.
  destruct c as [[] [] [] [] [] [] [] []]; reflexivity.
Qed.

Lemma ascii_lower_idem (s : string) : ascii_lower (ascii_lower s) = ascii_lower s.
Proof.
  induction s as [|c s IH]; simpl; [reflexivity|].
  now rewrite ascii_lower_char_idem, IH.
Qed.

Lemma ascii_lower_nonempty (s : string) : ascii_lower s = "" -> s = "".
Proof.
  destruct s; simpl; [reflexivity | discriminate].
Qed.

(** The ASCII [str.lower] has the three properties of [LowerLaws]. *)
#[export] Instance ascii_LowerLaws : @LowerLaws ascii_Lower.
Proof.
  split.
  - exact ascii_lower_idem.
  - reflexivity.
  - exact ascii_lower_nonempty.
Qed.

(* ================================================================== *)
(** * Field access *)

Section FieldAccess.
Context {L : Lower} {LL : LowerLaws}.

(** [__getattr__] looks the requested name up as it is. *)
Lemma getattr_lookup (m : Mod.t) (name : string) :
  Mod.__getattr__ m name =
  Return match dict_get (Mod.modinfo m) name with
         | Some v => v
         | None => JStr ""
         end.
Proof.
  unfold Mod.__getattr__, getitem.
  now destruct (dict_get (Mod.modinfo m) name).
Qed.

(** Every key of a parsed record is its own lowercase form. *)
Lemma parsed_keys_lowercase (fs : filesystem) (p : path) (m : Mod.t)
      (name : string) (v : json) :
  Mod.__init__ fs p = Return m ->
  dict_get (Mod.modinfo m) name = Some v ->
  lower name = name.
Proof.
  intros Hm Hget. apply init_return in Hm.
  destruct Hm as (z & raw & _ & _ & ->). simpl in Hget.
  rewrite dict_get_lower_keys in Hget.
  apply last_binding_in in Hget. destruct Hget as (k' & _ & <-).
  apply lower_idem.
Qed.

(** C1, as amended.  For a record built from an archive and an item
    [(k, v)] of its [modinfo.json] object, such that every item whose key
    has the same lowercase form holds the same value: field access by the
    lowercase form of [k] returns [v]; and field access by a name that is
    not its own lowercase form returns the empty string, whatever the
    object holds, since the requested name is looked up as it is. *)
Theorem getattr_lowercase_key (fs : filesystem) (p : path) (m : Mod.t)
        (k : string) (v : json) :
  Mod.__init__ fs p = Return m ->
  In (k, v) (Mod._modinfo_raw m) ->
  (forall k' v', In (k', v') (Mod._modinfo_raw m) -> lower k' = lower k -> v' = v) ->
  Mod.__getattr__ m (lower k) = Return v /\
  (forall name, lower name <> name -> Mod.__getattr__ m name = Return (JStr "")).
Proof.
  intros Hm Hin Hsame. split.
  - apply init_return in Hm. destruct Hm as (z & raw & _ & _ & ->).
    simpl in *. rewrite getattr_lookup. simpl.
    rewrite dict_get_lower_keys.
    now rewrite (last_binding_unique raw k v Hin Hsame).
  - intros name Hname. rewrite getattr_lookup.
    destruct (dict_get (Mod.modinfo m) name) as [w|] eqn:E; [|reflexivity].
    exfalso. apply Hname. exact (parsed_keys_lowercase fs p m name w Hm E).
Qed.

(** C2.  Field access never raises: it returns a value for every record
    and every name.  For a record built from an archive, a name whose
    lowercase form is no key of the metadata reads as the empty string. *)
Theorem getattr_total (m : Mod.t) (name : string) :
  (exists v, Mod.__getattr__ m name = Return v) /\
  (forall fs p,
      Mod.__init__ fs p = Return m ->
      dict_get (Mod.modinfo m) (lower name) = None ->
      Mod.__getattr__ m name = Return (JStr "")).
Proof.
  split.
  - rewrite getattr_lookup. eauto.
  - intros fs p Hm Habsent. rewrite getattr_lookup.
    destruct (dict_get (Mod.modinfo m) name) as [w|] eqn:E; [|reflexivity].
    rewrite (parsed_keys_lowercase fs p m name w Hm E) in Habsent.
    congruence.
Qed.

End FieldAccess.

(** The scenario archive [a.zip], read by the lowercase form of its key
    [Name]. *)
Lemma getattr_lowercase_key_witness :
  Mod.__getattr__ mod_a (lower "Name") = Return (JStr "Test Mod") /\
  (forall name, lower name <> name -> Mod.__getattr__ mod_a name = Return (JStr "")).
Proof.
  apply (@getattr_lowercase_key ascii_Lower ascii_LowerLaws
           (sample_fs [a_zip] NoFile) a_zip mod_a "Name" (JStr "Test Mod")).
  - reflexivity.
  - simpl. left. reflexivity.
  - simpl. intros k' v' [H|[H|[H|[H|[]]]]] Hk; inversion H; subst;
      first [reflexivity | discriminate Hk].
Defined.

(** C1 as stated fails: the key is written [Name] in [modinfo.json], and
    field access by [Name] or by [NAME] gives the empty string; only the
    lowercase name reads the value. *)
Lemma getattr_other_casing_counterexample :
  Mod.__init__ (sample_fs [a_zip] NoFile) a_zip = Return mod_a /\
  In ("Name", JStr "Test Mod") (Mod._modinfo_raw mod_a) /\
  Mod.__getattr__ mod_a "Name" = Return (JStr "") /\
  Mod.__getattr__ mod_a "NAME" = Return (JStr "") /\
  Mod.__getattr__ mod_a "name" = Return (JStr "Test Mod").
Proof.
  repeat split; try reflexivity. simpl. left. reflexivity.
Qed.

(** The scenario archive [b.zip] has no version. *)
Lemma getattr_total_witness :
  (exists v, Mod.__getattr__ mod_b "Version" = Return v) /\
  Mod.__getattr__ mod_b "Version" = Return (JStr "").
Proof.
  split.
  - exact (proj1 (@getattr_total ascii_Lower ascii_LowerLaws mod_b "Version")).
  - apply (proj2 (@getattr_total ascii_Lower ascii_LowerLaws mod_b "Version")
             (sample_fs [b_zip] NoFile) b_zip); reflexivity.
Defined.

(* ================================================================== *)
(** * Construction of a record *)

Section Construction.
Context {L : Lower}.

(** C6, as amended.  [Mod(archive)] raises exactly when the path cannot
    be opened as a zip file, or the archive has no [modinfo.json], or the
    entry cannot be read, or [json.loads] raises on its bytes, or the
    bytes parse to a value that is no object.  The exception is never a
    [ParseError]: it is the one the library raises at that step ([OSError]
    or [BadZipFile] for the path, [KeyError] for the missing entry, the
    exception of [read] or of [json.loads], [AttributeError] for the
    missing [items]).  A record that is returned keeps the path and the
    parsed object; its metadata has pairwise distinct keys, maps each key
    to the value of the last item whose key lowercases to it, and, when no
    two keys of the object share a lowercase form, is the object's items in
    their order with every key lowercased. *)
Theorem init_outcome (fs : filesystem) (p : path) :
  ((exists e, Mod.__init__ fs p = Raise e) <->
   (file_at fs p = NoFile \/ file_at fs p = NotZip \/
    (exists e, file_at fs p = BrokenZip e) \/
    exists z, file_at fs p = Zip z /\
      (z "modinfo.json" = None \/
       (exists e, z "modinfo.json" = Some (Unread e)) \/
       (exists e, z "modinfo.json" = Some (Unparsed e)) \/
       exists v, z "modinfo.json" = Some (Json v) /\ forall raw, v <> JObj raw))) /\
  (forall e, Mod.__init__ fs p = Raise e ->
     match file_at fs p with
     | NoFile => e = OSError p
     | NotZip => e = BadZipFile p
     | BrokenZip e' => e = e'
     | Zip z =>
         match z "modinfo.json" with
         | None => e = KeyError "modinfo.json"
         | Some (Unread e') => e = e'
         | Some (Unparsed e') => e = e'
         | Some (Json _) => e = AttributeError "items"
         end
     end) /\
  (forall m, Mod.__init__ fs p = Return m ->
     exists z raw,
       file_at fs p = Zip z /\
       z "modinfo.json" = Some (Json (JObj raw)) /\
       Mod.archive m = p /\
       Mod._modinfo_raw m = raw /\
       NoDup (keys (Mod.modinfo m)) /\
       (forall k, dict_get (Mod.modinfo m) k = last_binding raw k) /\
       (NoDup (map lower (keys raw)) ->
        Mod.modinfo m = map (fun kv => (lower (fst kv), snd kv)) raw)).
Proof.
  split; [|split].
  - unfold Mod.__init__, Mod._parse_archive, ZipFile, zip_read, json_loads.
    split.
    + destruct (file_at fs p) as [| |z|e0]; simpl; eauto.
      intros [e He]. right. right. right. exists z. split; [reflexivity|].
      destruct (z "modinfo.json") as [[v|e0|e0]|]; simpl in *; eauto.
      right. right. right. exists v. split; [reflexivity|].
      destruct v; simpl in *; try discriminate He; intros raw; discriminate.
    + intros [-> | [-> | [[e ->] | (z & -> & Hz)]]]; simpl; eauto.
      destruct Hz as [-> | [[e ->] | [[e ->] | (v & -> & Hv)]]]; simpl; eauto.
      destruct v as [| | | | | |raw]; simpl; eauto.
      now destruct (Hv raw).
  - unfold Mod.__init__, Mod._parse_archive, ZipFile, zip_read, json_loads.
    intros e. destruct (file_at fs p) as [| |z|e0]; simpl; try congruence.
    destruct (z "modinfo.json") as [[v|e0|e0]|]; simpl; try congruence.
    destruct v; simpl; congruence.
  - intros m Hm. apply init_return in Hm.
    destruct Hm as (z & raw & Hf & Hz & ->). exists z, raw. simpl.
    repeat split; auto.
    + apply NoDup_keys_fold_lower. constructor.
    + intros k. apply dict_get_lower_keys.
    + intros Hd. unfold Mod.lower_keys.
      now rewrite fold_lower_distinct.
Qed.

End Construction.

(** C6 as stated fails in both halves.  An archive whose [modinfo.json]
    is the valid JSON text of a list makes the construction raise, though
    the entry is there and parses.  And an object with the keys [A] and
    [a] gives a metadata mapping with the single item [a: 2]: the item
    [A: 1] has no counterpart. *)
Lemma init_outcome_counterexample :
  (file_at (sample_fs [c_zip] (Zip (zip_with modinfo_list))) c_zip
     = Zip (zip_with modinfo_list) /\
   zip_read (zip_with modinfo_list) "modinfo.json" = Return modinfo_list /\
   json_loads modinfo_list = Return (JArr [JInt 1]) /\
   Mod.__init__ (sample_fs [c_zip] (Zip (zip_with modinfo_list))) c_zip
     = Raise (AttributeError "items")) /\
  (exists m,
     Mod.__init__ (sample_fs [c_zip] (Zip (zip_with (Json (JObj modinfo_clash))))) c_zip
       = Return m /\
     Mod.modinfo m = [("a", JInt 2)] /\
     dict_get (Mod.modinfo m) (lower "A") = Some (JInt 2)).
Proof.
  split.
  - repeat split; reflexivity.
  - eexists. repeat split; reflexivity.
Qed.

(** The failures of the libraries reach the caller as they are: an
    encrypted entry, a text nested too deep for [json.loads], and a file
    that [ZipFile] cannot open although [is_zipfile] accepts it. *)
Example init_library_errors :
  Mod.__init__ (sample_fs [c_zip] (Zip (zip_with (Unread (RuntimeError "encrypted")))))
               c_zip
    = Raise (RuntimeError "encrypted") /\
  Mod.__init__ (sample_fs [c_zip] (Zip (zip_with (Unparsed RecursionError)))) c_zip
    = Raise RecursionError /\
  is_zipfile (sample_fs [c_zip] (BrokenZip (BadZipFile c_zip))) c_zip = true /\
  Mod.__init__ (sample_fs [c_zip] (BrokenZip (BadZipFile c_zip))) c_zip
    = Raise (BadZipFile c_zip).
Proof. repeat split. Qed.

(** The [Mods] directory below the two roots and below the empty path. *)
Example joinpath_roots :
  joinpath "/" "Mods" = "/Mods" /\ joinpath "//" "Mods" = "//Mods" /\
  joinpath "." "Mods" = "Mods" /\ joinpath "/var" "Mods" = "/var/Mods".
Proof. repeat split. Qed.

(* ================================================================== *)
(** * Refresh *)

Section Refresh.
Context {L : Lower}.

(** The run of [_mods_refresh], by the outcome of its two comprehensions. *)
Lemma refresh_run (fs : filesystem) (self : ModManager.t) :
  ModManager._mods_refresh fs self =
  match iterdir fs (ModManager.mods_path self) with
  | Raise e => Run (Raise e) self []
  | Return entries =>
      match mapM (Mod.__init__ fs) (filter (is_zipfile fs) entries) with
      | Raise e => Run (Raise e) self []
      | Return new_mods => Run (Return tt) (ModManager.set_mods new_mods self) []
      end
  end.
Proof.
  unfold ModManager._mods_refresh, bind, get, lift, modify. simpl.
  destruct (iterdir fs (ModManager.mods_path self)) as [entries|e]; simpl;
    [|reflexivity].
  destruct (mapM (Mod.__init__ fs) (filter (is_zipfile fs) entries)); reflexivity.
Qed.

Lemma init_archive (fs : filesystem) (l : list path) (ms : list Mod.t) :
  Forall2 (fun f m => Mod.__init__ fs f = Return m) l ms ->
  map Mod.archive ms = l.
Proof.
  induction 1 as [|f m l ms Hm _ IH]; simpl; [reflexivity|].
  apply init_return in Hm. destruct Hm as (z & raw & _ & _ & ->). simpl.
  now rewrite IH.
Qed.



(** C8.  The refresh assigns [mods] once, after the whole new list is
    built.  A refresh that raises leaves the manager as it was, its list
    of records included; it raises as soon as the construction of one
    record does; and a refresh that returns has replaced the list by the
    records of all the zip files of the directory. *)
Theorem refresh_atomic (fs : filesystem) (self : ModManager.t) :
  (forall e, result (ModManager._mods_refresh fs self) = Raise e ->
     state (ModManager._mods_refresh fs self) = self /\
     ModManager.mods (state (ModManager._mods_refresh fs self)) = ModManager.mods self) /\
  (forall entries f e0,
     iterdir fs (ModManager.mods_path self) = Return entries ->
     In f entries -> is_zipfile fs f = true -> Mod.__init__ fs f = Raise e0 ->
     exists e, ModManager._mods_refresh fs self = Run (Raise e) self []) /\
  (result (ModManager._mods_refresh fs self) = Return tt ->
     exists entries new_mods,
       iterdir fs (ModManager.mods_path self) = Return entries /\
       mapM (Mod.__init__ fs) (filter (is_zipfile fs) entries) = Return new_mods /\
       state (ModManager._mods_refresh fs self) = ModManager.set_mods new_mods self).
Proof.
  rewrite refresh_run. split; [|split].
  - intros e.
    destruct (iterdir fs (ModManager.mods_path self)) as [entries|e1]; simpl; auto.
    destruct (mapM (Mod.__init__ fs) (filter (is_zipfile fs) entries));
      simpl; auto; discriminate.
  - intros entries f e0 -> Hin Hz Hf.
    destruct (mapM_raise (Mod.__init__ fs) (filter (is_zipfile fs) entries) f e0)
      as [e ->]; auto.
    + apply filter_In. auto.
    + eauto.
  - destruct (iterdir fs (ModManager.mods_path self)) as [entries|e1]; simpl;
      [|discriminate].
    destruct (mapM (Mod.__init__ fs) (filter (is_zipfile fs) entries)) as [new_mods|]
      eqn:E; simpl; [|discriminate].
    intros _. exists entries, new_mods. auto.
Qed.

End Refresh.


(** A refresh over a directory whose second archive has no
    [modinfo.json]: it raises, and the record held before is still there. *)
Example refresh_atomic_run :
  ModManager._mods_refresh
    (sample_fs [a_zip; c_zip; b_zip] (Zip zip_without)) (manager_with [mod_b])
  = Run (Raise (KeyError "modinfo.json")) (manager_with [mod_b]) [].
Proof. reflexivity. Qed.

(* ================================================================== *)
(** * Lookup *)

Section Lookup.
Context {L : Lower} {LL : LowerLaws}.

Lemma getattr_str (m : Mod.t) (key : string) :
  str_or_absent m key = true ->
  Mod.__getattr__ m key = Return (JStr (text_of m key)).
Proof.
  unfold str_or_absent, text_of. rewrite getattr_lookup.
  destruct (dict_get (Mod.modinfo m) key) as [[]|]; intros; try discriminate; reflexivity.
Qed.

Lemma matches_str_fields (q : string) (m : Mod.t) :
  str_fields m ->
  ModManager.matches (lower q) m = Return (selected q m).
Proof.
  intros [Hn Hi]. unfold ModManager.matches, selected, same_ignoring_case.
  rewrite (getattr_str m "name" Hn), (getattr_str m "modid" Hi). simpl.
  now rewrite orb_false_r.
Qed.

Lemma mods_get_filter (self : ModManager.t) (q : string) :
  Forall str_fields (ModManager.mods self) ->
  ModManager._mods_get q self
  = Run (Return (filter (selected q) (ModManager.mods self))) self [].
Proof.
  intros Hall. unfold ModManager._mods_get, bind, get, lift. simpl.
  rewrite (filterM_total (ModManager.matches (lower q)) (selected q)); [reflexivity|].
  intros m Hm. apply matches_str_fields.
  rewrite Forall_forall in Hall. auto.
Qed.

(** The condition of the lookup raises on a record that holds something
    else than a string under [name] or [modid], and raises nothing else. *)
Lemma matches_raise (q : string) (m : Mod.t) (e : exn) :
  ModManager.matches q m = Raise e -> e = AttributeError "lower".
Proof.
  unfold ModManager.matches. rewrite !getattr_lookup. simpl.
  destruct (dict_get (Mod.modinfo m) "name") as [[]|]; simpl; try congruence;
    destruct (dict_get (Mod.modinfo m) "modid") as [[]|]; simpl; congruence.
Qed.

Lemma matches_non_str (q : string) (m : Mod.t) :
  str_or_absent m "name" = false \/ str_or_absent m "modid" = false ->
  ModManager.matches q m = Raise (AttributeError "lower").
Proof.
  unfold ModManager.matches, str_or_absent. rewrite !getattr_lookup. simpl.
  destruct (dict_get (Mod.modinfo m) "name") as [[]|]; simpl; try reflexivity;
    destruct (dict_get (Mod.modinfo m) "modid") as [[]|]; simpl;
    try reflexivity; intros [|]; discriminate.
Qed.

(** The lookup over a state with such a record raises. *)
Lemma mods_get_raises (self : ModManager.t) (q : string) (m : Mod.t) :
  In m (ModManager.mods self) ->
  str_or_absent m "name" = false \/ str_or_absent m "modid" = false ->
  ModManager._mods_get q self = Run (Raise (AttributeError "lower")) self [].
Proof.
  intros Hin Hm. unfold ModManager._mods_get, bind, get, lift. simpl.
  rewrite (filterM_raise (ModManager.matches (lower q)) (ModManager.mods self) m
             (AttributeError "lower")); auto.
  - intros y e' _. apply matches_raise.
  - now apply matches_non_str.
Qed.

Lemma selected_iff (q : string) (m : Mod.t) :
  selected q m = true <->
  lower (text_of m "name") = lower q \/ lower (text_of m "modid") = lower q.
Proof.
  unfold selected, same_ignoring_case.
  rewrite orb_true_iff, !String.eqb_eq. intuition congruence.
Qed.

(** C4, as amended.  In a state whose records hold strings under [name]
    and [modid] where they hold anything, the lookup returns, in scan
    order and without touching the state, exactly the records whose name
    or mod-id equals the query under case-insensitive comparison: every
    matching record, and the empty list when no record matches. *)
Theorem mods_get_case_insensitive (self : ModManager.t) (q : string) :
  Forall str_fields (ModManager.mods self) ->
  ModManager._mods_get q self
    = Run (Return (filter (selected q) (ModManager.mods self))) self [] /\
  (forall m, In m (filter (selected q) (ModManager.mods self)) <->
     In m (ModManager.mods self) /\
     (lower (text_of m "name") = lower q \/ lower (text_of m "modid") = lower q)) /\
  ((forall m, In m (ModManager.mods self) ->
      lower (text_of m "name") <> lower q /\ lower (text_of m "modid") <> lower q) ->
   filter (selected q) (ModManager.mods self) = []).
Proof.
  intros Hall. split; [now apply mods_get_filter|]. split.
  - intros m. now rewrite filter_In, selected_iff.
  - intros Hnone.
    induction (ModManager.mods self) as [|m l IH]; simpl; [reflexivity|].
    destruct (selected q m) eqn:E.
    + apply selected_iff in E. destruct (Hnone m (or_introl eq_refl)). tauto.
    + apply IH; [now inversion Hall | intros; apply Hnone; now right].
Qed.

Lemma text_empty (m : Mod.t) (key : string) :
  str_or_absent m key = true ->
  same_ignoring_case "" (text_of m key) = absent_or_empty m key.
Proof.
  unfold str_or_absent, absent_or_empty, text_of, same_ignoring_case.
  rewrite getattr_lookup, lower_empty.
  destruct (dict_get (Mod.modinfo m) key) as [[]|]; intros; try discriminate.
  - destruct (String.eqb s "") eqn:E.
    + apply String.eqb_eq in E. subst s. rewrite lower_empty. reflexivity.
    + apply String.eqb_neq. intros Hs. apply String.eqb_neq in E. apply E.
      now apply lower_nonempty.
  - rewrite lower_empty. reflexivity.
Qed.

(** C10, as amended.  In a state whose records hold strings under [name]
    and [modid] where they hold anything, the lookup of the empty query
    returns exactly the records in which the name or the mod-id is missing
    or the empty string: one of the two is enough. *)
Theorem mods_get_empty_query (self : ModManager.t) :
  Forall str_fields (ModManager.mods self) ->
  ModManager._mods_get "" self
    = Run (Return (filter (fun m => absent_or_empty m "name" || absent_or_empty m "modid")
                          (ModManager.mods self))) self [].
Proof.
  intros Hall. rewrite (mods_get_filter self "" Hall). f_equal. f_equal.
  apply filter_ext_in. intros m Hm.
  rewrite Forall_forall in Hall. destruct (Hall m Hm) as [Hn Hi].
  unfold selected. now rewrite (text_empty m "name" Hn), (text_empty m "modid" Hi).
Qed.

End Lookup.

(** The two scenario archives, looked up by the mod-id of the first in
    upper case. *)
Lemma mods_get_case_insensitive_witness :
  ModManager._mods_get "TESTMOD" (manager_with [mod_a; mod_b])
    = Run (Return [mod_a]) (manager_with [mod_a; mod_b]) [] /\
  (forall m, In m [mod_a] <->
     In m [mod_a; mod_b] /\
     (lower (text_of m "name") = lower "TESTMOD" \/
      lower (text_of m "modid") = lower "TESTMOD")) /\
  ((forall m, In m [mod_a; mod_b] ->
      lower (text_of m "name") <> lower "TESTMOD" /\
      lower (text_of m "modid") <> lower "TESTMOD") ->
   [mod_a] = []).
Proof.
  apply (@mods_get_case_insensitive ascii_Lower (manager_with [mod_a; mod_b]) "TESTMOD").
  repeat constructor.
Defined.

(** C4 as stated fails on a state that a scan can produce: the archive
    gives its name as the number 5, the refresh stores the record, and the
    lookup raises on the number's missing [lower] instead of returning. *)
Lemma mods_get_counterexample :
  ModManager.__init__ (sample_fs [c_zip] (Zip (zip_with (Json (JObj modinfo_numeric))))) None
    = Return (manager_with [mod_numeric]) /\
  Mod.__getattr__ mod_numeric "modid" = Return (JStr "x") /\
  ModManager._mods_get "x" (manager_with [mod_numeric])
    = Run (Raise (AttributeError "lower")) (manager_with [mod_numeric]) [].
Proof.
  repeat split.
Qed.

(** The two scenario archives and the empty query: [b.zip] has no name. *)
Lemma mods_get_empty_query_witness :
  ModManager._mods_get "" (manager_with [mod_a; mod_b])
    = Run (Return [mod_b]) (manager_with [mod_a; mod_b]) [].
Proof.
  apply (@mods_get_empty_query ascii_Lower ascii_LowerLaws (manager_with [mod_a; mod_b])).
  repeat constructor.
Defined.

(** C10 as stated fails: the empty query returns the record of [b.zip],
    whose mod-id is present and not empty; its missing name is enough. *)
Lemma mods_get_empty_query_counterexample :
  ModManager._mods_get "" (manager_with [mod_b])
    = Run (Return [mod_b]) (manager_with [mod_b]) [] /\
  dict_get (Mod.modinfo mod_b) "modid" = Some (JStr "bare") /\
  absent_or_empty mod_b "modid" = false /\
  absent_or_empty mod_b "name" = true.
Proof.
  repeat split.
Qed.

(* ================================================================== *)
(** * Presentation *)

Section Presentation.
Context {R : Repr}.

Lemma shown_field (m : Mod.t) (key placeholder : string) :
  format_value (py_or match dict_get (Mod.modinfo m) key with
                      | Some v => v
                      | None => JStr ""
                      end (JStr placeholder))
  = summary_field m key placeholder.
Proof.
  unfold summary_field, py_or.
  destruct (dict_get (Mod.modinfo m) key) as [v|]; simpl; [|reflexivity].
  now destruct (truthy v).
Qed.

Lemma print_items_run (l : list (string * json)) (m : Mod.t) :
  Mod.print_items l m
  = Run (Return tt) m (map (fun kv => fst kv ++ ": " ++ format_value (snd kv)) l).
Proof.
  induction l as [|[k v] l IH]; simpl; [reflexivity|].
  unfold bind, print. simpl. now rewrite IH.
Qed.

(** C5.  The default summary prints one line,
    [name (modid) [version] - description], and returns; each of the four
    fields shows its placeholder when the key is missing or stored with
    the empty string, and the stored text when that is a string that is
    not empty.  A record whose metadata is [modid: bare] alone prints
    [UNKNOWN (bare) [Version unknown] - No description]. *)
Theorem print_default_line (m : Mod.t) :
  Mod.print_default m
    = Run (Return tt) m
        [summary_field m "name" "UNKNOWN" ++ " (" ++
         summary_field m "modid" "ModID unknown" ++ ") [" ++
         summary_field m "version" "Version unknown" ++ "] - " ++
         summary_field m "description" "No description"] /\
  (forall key placeholder,
     absent_or_empty m key = true -> summary_field m key placeholder = placeholder) /\
  (forall key placeholder s,
     dict_get (Mod.modinfo m) key = Some (JStr s) -> s <> "" ->
     summary_field m key placeholder = s) /\
  (forall p b raw,
     stdout (Mod.print_default {| Mod.archive := p; Mod._modinfo_string := b;
                                  Mod._modinfo_raw := raw;
                                  Mod.modinfo := [("modid", JStr "bare")] |})
     = ["UNKNOWN (bare) [Version unknown] - No description"]).
Proof.
  repeat split.
  - unfold Mod.print_default, bind, get, lift, print. simpl.
    rewrite !getattr_lookup. simpl. now rewrite !shown_field.
  - intros key placeholder. unfold absent_or_empty, summary_field.
    destruct (dict_get (Mod.modinfo m) key) as [[]|]; try discriminate; try reflexivity.
    intros Hs. apply String.eqb_eq in Hs. now subst.
  - intros key placeholder s Hget Hs. unfold summary_field. rewrite Hget. simpl.
    apply String.eqb_neq in Hs. now rewrite Hs.
Qed.

(** C9.  The default summary and the full dump return, print, and leave
    the record as it was, archive path and metadata included.  The full
    dump prints the header with the archive path, an empty line, and then
    one line [key: value] for every item of the metadata in stored order. *)
Theorem presentation_read_only (m : Mod.t) :
  (result (Mod.print_default m) = Return tt /\
   state (Mod.print_default m) = m /\
   Mod.archive (state (Mod.print_default m)) = Mod.archive m /\
   Mod.modinfo (state (Mod.print_default m)) = Mod.modinfo m) /\
  (result (Mod.print_all m) = Return tt /\
   state (Mod.print_all m) = m /\
   Mod.archive (state (Mod.print_all m)) = Mod.archive m /\
   Mod.modinfo (state (Mod.print_all m)) = Mod.modinfo m) /\
  stdout (Mod.print_all m)
    = ("Mod located at " ++ dquote ++ Mod.archive m ++ dquote ++ ":")
      :: "" :: map (fun kv => fst kv ++ ": " ++ format_value (snd kv)) (Mod.modinfo m).
Proof.
  assert (Hall : Mod.print_all m
                 = Run (Return tt) m
                     (("Mod located at " ++ dquote ++ Mod.archive m ++ dquote ++ ":")
                      :: "" :: map (fun kv => fst kv ++ ": " ++ format_value (snd kv))
                                   (Mod.modinfo m))).
  { unfold Mod.print_all, bind, get, print. simpl.
    now rewrite print_items_run. }
  rewrite Hall. unfold Mod.print_default, bind, get, lift, print. simpl.
  rewrite !getattr_lookup. simpl. repeat split.
Qed.

End Presentation.

(* ================================================================== *)
(** * The methods without a body *)

(** C7, as amended.  The five methods whose body is [pass] or a docstring
    alone return [None]: they raise nothing, print nothing and leave the
    object as it was. *)
Theorem stubs_return_none (m : Mod.t) (mm : ModManager.t) (version : json)
        (modid : string) :
  Mod._check_update m = Run (Return tt) m [] /\
  Mod.remove m = Run (Return tt) m [] /\
  Mod.update version m = Run (Return tt) m [] /\
  ModManager.mod_install mm = Run (Return tt) mm [] /\
  ModManager.mod_remove modid mm = Run (Return tt) mm [].
Proof.
  repeat split.
Qed.

(** C7 as stated fails: on the record of [b.zip] and a manager holding it,
    each of the five calls returns, and none raises. *)
Lemma stubs_counterexample :
  result (Mod._check_update mod_b) = Return tt /\
  result (Mod.remove mod_b) = Return tt /\
  result (Mod.update (JStr "1.0.1") mod_b) = Return tt /\
  result (ModManager.mod_install (manager_with [mod_b])) = Return tt /\
  result (ModManager.mod_remove "bare" (manager_with [mod_b])) = Return tt /\
  (forall e, result (Mod.remove mod_b) <> Raise e).
Proof.
  repeat split. discriminate.
Qed.

(* ================================================================== *)
(** * Tokens of a line *)

Lemma append_assoc (a b c : string) : (a ++ b) ++ c = a ++ (b ++ c).
Proof.
  induction a as [|x a IH]; simpl; [reflexivity | now rewrite IH].
Qed.

Lemma append_empty_r (a : string) : a ++ "" = a.
Proof.
  induction a as [|x a IH]; simpl; [reflexivity | now rewrite IH].
Qed.

Lemma append_nonempty (a : string) (c : ascii) : a ++ String c "" <> "".
Proof.
  destruct a; discriminate.
Qed.

Lemma no_space_app (a b : string) :
  no_space (a ++ b) = no_space a && no_space b.
Proof.
  induction a as [|x a IH]; simpl; [reflexivity|].
  now rewrite IH, andb_assoc.
Qed.

Lemma split_from_lstrip (s : string) :
  split_from "" (lstrip s) = split_from "" s.
Proof.
  induction s as [|c s IH]; simpl; [reflexivity|].
  destruct (isspace c) eqn:E; simpl; [assumption | now rewrite E].
Qed.

Lemma split_from_rstrip (s : string) :
  forall word, split_from word (rstrip s) = split_from word s.
Proof.
  induction s as [|c s IH]; intros word; simpl; [reflexivity|].
  destruct (rstrip s) as [|c' r] eqn:Er.
  - destruct (isspace c) eqn:E; simpl.
    + rewrite <- (IH ""). simpl. now destruct (String.eqb word "").
    + rewrite E, <- IH. reflexivity.
  - simpl. destruct (isspace c); rewrite <- ?IH; reflexivity.
Qed.

(** [strip] before [split] changes nothing. *)
Lemma split_strip (s : string) : split (strip s) = split s.
Proof.
  unfold split, strip. now rewrite split_from_rstrip, split_from_lstrip.
Qed.

Lemma split_from_words (s : string) :
  forall word, no_space word = true -> Forall is_word (split_from word s).
Proof.
  induction s as [|c s IH]; intros word Hw; simpl.
  - destruct (String.eqb word "") eqn:E; constructor; [|constructor].
    apply String.eqb_neq in E. now split.
  - destruct (isspace c) eqn:Ec.
    + destruct (String.eqb word "") eqn:E; [now apply IH|].
      constructor; [|now apply IH].
      apply String.eqb_neq in E. now split.
    + apply IH. rewrite no_space_app, Hw. simpl. now rewrite Ec.
Qed.

(** Every element of a split is a word. *)
Lemma split_words (s : string) : Forall is_word (split s).
Proof.
  now apply split_from_words.
Qed.

Lemma split_from_word (t s : string) :
  no_space t = true ->
  forall word, split_from word (t ++ s) = split_from (word ++ t) s.
Proof.
  induction t as [|c t IH]; simpl; intros Ht word.
  - now rewrite append_empty_r.
  - apply andb_true_iff in Ht. destruct Ht as [Hc Ht].
    apply negb_true_iff in Hc. rewrite Hc, (IH Ht), append_assoc. reflexivity.
Qed.

(** Words joined by single spaces split back into the same words. *)
Lemma split_join (ws : list string) :
  Forall is_word ws -> split (join " " ws) = ws.
Proof.
  unfold split, join. induction 1 as [|w ws [Hne Hw] Hws IH]; [reflexivity|].
  destruct ws as [|w' ws'].
  - simpl. rewrite <- (append_empty_r w) at 1. rewrite (split_from_word w "" Hw).
    simpl. apply String.eqb_neq in Hne. now rewrite Hne.
  - change (String.concat " " (w :: w' :: ws'))
      with (w ++ " " ++ String.concat " " (w' :: ws')).
    remember (String.concat " " (w' :: ws')) as rest.
    rewrite (split_from_word w _ Hw). simpl.
    apply String.eqb_neq in Hne. rewrite Hne. now rewrite IH.
Qed.

Lemma split_from_nil (s : string) :
  forall word, split_from word s = [] <-> word = "" /\ all_space s = true.
Proof.
  induction s as [|c s IH]; intros word; simpl.
  - destruct (String.eqb word "") eqn:E.
    + apply String.eqb_eq in E. tauto.
    + apply String.eqb_neq in E. split; [discriminate | tauto].
  - destruct (isspace c) eqn:Ec; simpl.
    + destruct (String.eqb word "") eqn:E.
      * apply String.eqb_eq in E. rewrite IH. tauto.
      * apply String.eqb_neq in E. split; [discriminate | tauto].
    + rewrite IH. split; [|intros [_ H]; discriminate].
      intros [H _]. now apply append_nonempty in H.
Qed.

(** A string splits into nothing exactly when it is empty or made of
    whitespace only. *)
Lemma split_nil (s : string) : split s = [] <-> all_space s = true.
Proof.
  unfold split. rewrite split_from_nil. tauto.
Qed.

(* ================================================================== *)
(** * More on records *)

Section Records.
Context {L : Lower} {LL : LowerLaws} {R : Repr}.

Lemma existsb_keys (d : dict) (k : string) :
  existsb (String.eqb k) (keys d) =
  match dict_get d k with Some _ => true | None => false end.
Proof.
  induction d as [|[k' v] d IH]; simpl; [reflexivity|].
  rewrite String.eqb_sym. destruct (String.eqb k' k); simpl; auto.
Qed.

Lemma keys_fold_lower (raw : list (string * json)) :
  forall d : dict,
    keys (fold_left (fun d kv => dict_set d (lower (fst kv)) (snd kv)) raw d) =
    (keys d ++ first_occurrences (keys d) (map lower (keys raw)))%list.
Proof.
  induction raw as [|[k v] raw IH]; intros d; simpl.
  - now rewrite app_nil_r.
  - rewrite IH, keys_dict_set, existsb_keys.
    destruct (dict_get d (lower k)); [reflexivity|].
    now rewrite <- app_assoc.
Qed.

Lemma first_occurrences_length (l : list string) :
  forall seen, (List.length (first_occurrences seen l) <= List.length l)%nat.
Proof.
  induction l as [|x l IH]; intros seen; simpl; [lia|].
  destruct (existsb (String.eqb x) seen); simpl.
  - specialize (IH seen). lia.
  - specialize (IH (seen ++ [x])%list). lia.
Qed.

(** X3.  The metadata of a record holds the lowercased keys of the JSON
    object in the order of their first occurrence, each once: it never
    has more items than the object, and the full dump lists the keys in
    that order. *)
Theorem init_key_order (fs : filesystem) (p : path) (m : Mod.t) :
  Mod.__init__ fs p = Return m ->
  keys (Mod.modinfo m) = first_occurrences [] (map lower (keys (Mod._modinfo_raw m))) /\
  (List.length (Mod.modinfo m) <= List.length (Mod._modinfo_raw m))%nat.
Proof.
  intros Hm. apply init_return in Hm. destruct Hm as (z & raw & _ & _ & ->).
  simpl. unfold Mod.lower_keys.
  assert (Hk := keys_fold_lower raw []). simpl in Hk. split; [exact Hk|].
  rewrite <- (length_map fst
                (fold_left (fun d kv => dict_set d (lower (fst kv)) (snd kv)) raw [])).
  fold (keys (fold_left (fun d kv => dict_set d (lower (fst kv)) (snd kv)) raw [])).
  rewrite Hk.
  etransitivity; [apply first_occurrences_length|].
  unfold keys. now rewrite !length_map.
Qed.

Lemma summary_field_false (m : Mod.t) (key placeholder : string) :
  absent_or_false m key -> summary_field m key placeholder = placeholder.
Proof.
  unfold absent_or_false, summary_field.
  destruct (dict_get (Mod.modinfo m) key) as [v|]; [|reflexivity].
  intros [->|[->|[->|[[sign ->]|[->|[->| ->]]]]]]; reflexivity.
Qed.

Lemma print_default_run (m : Mod.t) :
  Mod.print_default m = Run (Return tt) m [summary_line m].
Proof.
  unfold Mod.print_default, bind, get, lift, print, summary_line. simpl.
  rewrite !getattr_lookup. simpl. now rewrite !shown_field.
Qed.

Lemma print_all_run (m : Mod.t) :
  Mod.print_all m = Run (Return tt) m (dump_lines m).
Proof.
  unfold Mod.print_all, bind, get, print, dump_lines. simpl.
  now rewrite print_items_run.
Qed.

(** X4.  A field stored with a false value ([None], [False], a zero, an
    empty string, list or dict) shows like a missing one: when all four
    fields are missing or false, the summary is the line of the four
    placeholders. *)
Theorem print_default_false_values (m : Mod.t) :
  absent_or_false m "name" -> absent_or_false m "modid" ->
  absent_or_false m "version" -> absent_or_false m "description" ->
  Mod.print_default m
  = Run (Return tt) m ["UNKNOWN (ModID unknown) [Version unknown] - No description"].
Proof.
  intros Hn Hi Hv Hd. rewrite print_default_run. unfold summary_line.
  now rewrite !summary_field_false.
Qed.

End Records.

Lemma init_key_order_witness :
  keys (Mod.modinfo mod_a)
    = first_occurrences [] (map lower (keys (Mod._modinfo_raw mod_a))) /\
  (List.length (Mod.modinfo mod_a) <= List.length (Mod._modinfo_raw mod_a))%nat.
Proof.
  apply (@init_key_order ascii_Lower (sample_fs [a_zip] NoFile) a_zip mod_a).
  reflexivity.
Defined.

Lemma print_default_false_values_witness :
  @Mod.print_default plain_Repr mod_false
  = Run (Return tt) mod_false
      ["UNKNOWN (ModID unknown) [Version unknown] - No description"].
Proof.
  apply (@print_default_false_values plain_Repr mod_false);
    unfold absent_or_false; simpl; tauto.
Defined.

(* ================================================================== *)
(** * More on the scan *)

Section Scan.
Context {L : Lower} {LL : LowerLaws}.

Lemma mapM_first_raise {A B} (f : A -> outcome B) (pre : list A) (x : A)
      (post : list A) (e : exn) :
  (forall y, In y pre -> exists b, f y = Return b) ->
  f x = Raise e ->
  mapM f (pre ++ x :: post) = Raise e.
Proof.
  intros Hpre Hx. induction pre as [|y pre IH]; simpl.
  - now rewrite Hx.
  - destruct (Hpre y (or_introl eq_refl)) as [b ->]. simpl.
    rewrite IH; [reflexivity|]. intros; apply Hpre; now right.
Qed.

Lemma init_run (fs : filesystem) (dp : option path) :
  ModManager.__init__ fs dp =
  match iterdir fs (joinpath (root_of dp) "Mods") with
  | Raise e => Raise e
  | Return entries =>
      match mapM (Mod.__init__ fs) (filter (is_zipfile fs) entries) with
      | Raise e => Raise e
      | Return new_mods =>
          Return {| ModManager.data_path := root_of dp;
                    ModManager.mods_path := joinpath (root_of dp) "Mods";
                    ModManager.mods := new_mods |}
      end
  end.
Proof.
  unfold ModManager.__init__. rewrite refresh_run. simpl.
  fold (root_of dp).
  destruct (iterdir fs (joinpath (root_of dp) "Mods")) as [entries|e]; simpl;
    [|reflexivity].
  destruct (mapM (Mod.__init__ fs) (filter (is_zipfile fs) entries)); reflexivity.
Qed.

(** X5.  A manager can be built exactly when its [Mods] directory can be
    listed and every zip file in it is a valid archive.  The manager built
    holds the data directory given (the default one when none is), the
    [Mods] directory below it, and one record per zip file of the
    directory, in the order of the listing. *)
Theorem manager_init_iff (fs : filesystem) (dp : option path) :
  ((exists mm, ModManager.__init__ fs dp = Return mm) <->
   (exists entries,
      iterdir fs (joinpath (root_of dp) "Mods") = Return entries /\
      forall f, In f entries -> is_zipfile fs f = true -> is_valid_archive fs f = true)) /\
  (forall mm, ModManager.__init__ fs dp = Return mm ->
     ModManager.data_path mm = root_of dp /\
     ModManager.mods_path mm = joinpath (root_of dp) "Mods" /\
     exists entries,
       iterdir fs (ModManager.mods_path mm) = Return entries /\
       map Mod.archive (ModManager.mods mm) = filter (is_zipfile fs) entries).
Proof.
  rewrite init_run. split.
  - split.
    + intros [mm Hmm].
      destruct (iterdir fs (joinpath (root_of dp) "Mods")) as [entries|e];
        [|discriminate].
      exists entries. split; [reflexivity|]. intros f Hin Hz.
      destruct (mapM (Mod.__init__ fs) (filter (is_zipfile fs) entries))
        as [new_mods|] eqn:E; [|discriminate].
      apply mapM_return in E. apply init_valid.
      assert (Hf : In f (filter (is_zipfile fs) entries)) by (apply filter_In; auto).
      clear - E Hf. induction E as [|g m l ms Hg _ IH]; [contradiction|].
      destruct Hf as [->|Hf]; eauto.
    + intros (entries & -> & Hall).
      destruct (mapM_total (Mod.__init__ fs) (filter (is_zipfile fs) entries))
        as [new_mods ->]; [|eauto].
      intros f Hf. apply filter_In in Hf. destruct Hf as [Hin Hz].
      apply init_valid. auto.
  - intros mm.
    destruct (iterdir fs (joinpath (root_of dp) "Mods")) as [entries|e] eqn:Ed;
      [|discriminate].
    destruct (mapM (Mod.__init__ fs) (filter (is_zipfile fs) entries))
      as [new_mods|] eqn:E; [|discriminate].
    intros [= <-]. simpl. repeat split; auto.
    exists entries. split; [assumption|].
    apply mapM_return in E. exact (init_archive fs _ _ E).
Qed.

(** X6.  When the archives listed before a zip file are valid and that
    file is not, the refresh raises the exception of that file's
    construction, prints nothing and leaves the manager as it was: the
    first invalid archive in the listing decides the error. *)
Theorem refresh_first_failure (fs : filesystem) (self : ModManager.t)
        (pre : list path) (f : path) (post : list path) (e : exn) :
  iterdir fs (ModManager.mods_path self) = Return (pre ++ f :: post)%list ->
  (forall g, In g pre -> is_zipfile fs g = true -> is_valid_archive fs g = true) ->
  is_zipfile fs f = true ->
  Mod.__init__ fs f = Raise e ->
  ModManager._mods_refresh fs self = Run (Raise e) self [].
Proof.
  intros Hdir Hpre Hz Hf. rewrite refresh_run, Hdir, filter_app. simpl.
  rewrite Hz, (mapM_first_raise (Mod.__init__ fs) _ f _ e); auto.
  intros g Hg. apply filter_In in Hg. destruct Hg as [Hin Hzg].
  apply init_valid. auto.
Qed.

(** X7.  A refresh is a full rescan: its outcome and the state it leaves
    do not depend on the records held before, and a second refresh on the
    same file system gives the state of the first. *)
Theorem refresh_full_rescan (fs : filesystem) (self : ModManager.t)
        (old : list Mod.t) :
  result (ModManager._mods_refresh fs (ModManager.set_mods old self))
    = result (ModManager._mods_refresh fs self) /\
  (result (ModManager._mods_refresh fs self) = Return tt ->
   state (ModManager._mods_refresh fs (ModManager.set_mods old self))
     = state (ModManager._mods_refresh fs self) /\
   ModManager._mods_refresh fs (state (ModManager._mods_refresh fs self))
     = ModManager._mods_refresh fs self).
Proof.
  rewrite !refresh_run. simpl.
  destruct (iterdir fs (ModManager.mods_path self)) as [entries|e] eqn:Ed; simpl.
  - destruct (mapM (Mod.__init__ fs) (filter (is_zipfile fs) entries))
      as [new_mods|e] eqn:E; simpl.
    + split; [reflexivity|]. intros _. split; [reflexivity|].
      now rewrite Ed, E.
    + split; [reflexivity | discriminate].
  - split; [reflexivity | discriminate].
Qed.

Lemma lower_keys_lowercase (raw : list (string * json)) :
  Forall (fun k => lower k = k) (keys (Mod.lower_keys raw)).
Proof.
  apply Forall_forall. intros k Hk.
  destruct (dict_get (Mod.lower_keys raw) k) as [v|] eqn:E.
  - rewrite dict_get_lower_keys in E. apply last_binding_in in E.
    destruct E as (k' & _ & <-). apply lower_idem.
  - apply dict_get_none in E. contradiction.
Qed.

(** X8.  After a refresh that returns, every record held is the record
    its own archive gives: the archive is a zip file of the directory,
    building a record from it again gives the same record, and the keys of
    the metadata are pairwise distinct and their own lowercase form. *)
Theorem refresh_records_scanned (fs : filesystem) (self : ModManager.t) :
  result (ModManager._mods_refresh fs self) = Return tt ->
  Forall (scanned fs) (ModManager.mods (state (ModManager._mods_refresh fs self))).
Proof.
  rewrite refresh_run.
  destruct (iterdir fs (ModManager.mods_path self)) as [entries|e]; simpl;
    [|discriminate].
  destruct (mapM (Mod.__init__ fs) (filter (is_zipfile fs) entries))
    as [new_mods|] eqn:E; simpl; [|discriminate].
  intros _. apply mapM_return in E.
  assert (Hz : Forall (fun f => is_zipfile fs f = true) (filter (is_zipfile fs) entries)).
  { apply Forall_forall. intros f Hf. now apply filter_In in Hf. }
  induction E as [|f m l ms Hm _ IH]; constructor.
  - inversion Hz as [|? ? Hzf _]; subst.
    assert (Hm' := Hm). apply init_return in Hm'.
    destruct Hm' as (z & raw & _ & _ & ->). unfold scanned. simpl.
    repeat split; auto.
    + apply NoDup_keys_fold_lower. constructor.
    + apply lower_keys_lowercase.
  - apply IH. now inversion Hz.
Qed.

End Scan.

Lemma refresh_first_failure_witness :
  ModManager._mods_refresh
    (sample_fs [a_zip; c_zip; b_zip] (Zip zip_without)) (manager_with [mod_b])
  = Run (Raise (KeyError "modinfo.json")) (manager_with [mod_b]) [].
Proof.
  apply (@refresh_first_failure ascii_Lower
           (sample_fs [a_zip; c_zip; b_zip] (Zip zip_without)) (manager_with [mod_b])
           [a_zip] c_zip [b_zip] (KeyError "modinfo.json")).
  - reflexivity.
  - simpl. intros g [<-|[]] _. reflexivity.
  - reflexivity.
  - reflexivity.
Defined.

Lemma refresh_records_scanned_witness :
  Forall (scanned (sample_fs [a_zip; notes_txt; b_zip] NoFile)) [mod_a; mod_b].
Proof.
  apply (@refresh_records_scanned ascii_Lower ascii_LowerLaws
           (sample_fs [a_zip; notes_txt; b_zip] NoFile) (manager_with [])).
  reflexivity.
Defined.

(* ================================================================== *)
(** * Listing *)

Section Listing.
Context {L : Lower} {R : Repr}.

Lemma for_each_call {S O} (method : M O unit) (out : O -> list string)
      (l : list O) (s : S) :
  (forall o, In o l -> method o = Run (Return tt) o (out o)) ->
  for_each l (fun o => call o method) s = Run (Return tt) s (flat_map out l).
Proof.
  set (body := fun o : O => call o method).
  induction l as [|o l IH]; intros Hall; [reflexivity|].
  cbn [for_each flat_map].
  change (body o s) with (Run (result (method o)) s (stdout (method o))).
  rewrite (Hall o (or_introl eq_refl)). cbn [result state stdout].
  rewrite IH by (intros; apply Hall; now right). reflexivity.
Qed.

Lemma filter_none {A} (f : A -> bool) (l : list A) :
  (forall x, In x l -> f x = false) -> filter f l = [].
Proof.
  induction l as [|x l IH]; intros Hnone; simpl; [reflexivity|].
  rewrite (Hnone x (or_introl eq_refl)). apply IH. intros; apply Hnone; now right.
Qed.

Lemma flat_map_single {A B} (f : A -> B) (l : list A) :
  flat_map (fun x => [f x]) l = map f l.
Proof.
  induction l as [|x l IH]; simpl; [reflexivity | now rewrite IH].
Qed.

Lemma mods_lists_out (self : ModManager.t) :
  ModManager.mods_lists self
  = Run (Return tt) self (flat_map (fun m => [summary_line m]) (ModManager.mods self)).
Proof.
  unfold ModManager.mods_lists, bind, get. simpl.
  rewrite (for_each_call Mod.print_default (fun m => [summary_line m]));
    [reflexivity|].
  intros m _. apply print_default_run.
Qed.

(** X9.  [mods_lists] prints one summary line per record held, in scan
    order, and nothing else: as many lines as records, none for a manager
    without records.  It never raises and leaves the manager as it was. *)
Theorem mods_lists_run (self : ModManager.t) :
  ModManager.mods_lists self
    = Run (Return tt) self (map summary_line (ModManager.mods self)) /\
  List.length (stdout (ModManager.mods_lists self))
    = List.length (ModManager.mods self).
Proof.
  rewrite mods_lists_out, flat_map_single. simpl.
  split; [reflexivity | apply length_map].
Qed.

Lemma mod_list_found (self : ModManager.t) (q : string) (found : list Mod.t) :
  ModManager._mods_get q self = Run (Return found) self [] ->
  ModManager.mod_list q self = Run (Return tt) self (flat_map dump_lines found).
Proof.
  intros Hget. unfold ModManager.mod_list, bind. rewrite Hget. simpl.
  rewrite (for_each_call Mod.print_all dump_lines); [reflexivity|].
  intros m _. apply print_all_run.
Qed.

(** X10.  In a state whose records hold strings under [name] and [modid]
    where they hold anything, [mod_list] prints the full dump of every
    record the query selects, one dump after the other in scan order,
    returns and leaves the manager as it was; a query that selects no
    record prints nothing. *)
Theorem mod_list_run (self : ModManager.t) (q : string) :
  Forall str_fields (ModManager.mods self) ->
  ModManager.mod_list q self
    = Run (Return tt) self
        (flat_map dump_lines (filter (selected q) (ModManager.mods self))) /\
  ((forall m, In m (ModManager.mods self) -> selected q m = false) ->
   ModManager.mod_list q self = Run (Return tt) self []).
Proof.
  intros Hall.
  assert (Hrun := mod_list_found self q _ (mods_get_filter self q Hall)).
  split; [exact Hrun|]. intros Hnone. rewrite Hrun.
  now rewrite (filter_none (selected q) (ModManager.mods self) Hnone).
Qed.

(** X11.  When one record of the state holds something else than a
    string under [name] or [modid], [mod_list] raises [AttributeError] for
    every query, before it prints anything. *)
Theorem mod_list_raises (self : ModManager.t) (q : string) (m : Mod.t) :
  In m (ModManager.mods self) ->
  str_or_absent m "name" = false \/ str_or_absent m "modid" = false ->
  ModManager.mod_list q self = Run (Raise (AttributeError "lower")) self [].
Proof.
  intros Hin Hm. unfold ModManager.mod_list, bind.
  now rewrite (mods_get_raises self q m Hin Hm).
Qed.

(** X17.  A record of the state is found by its own name or mod-id in any
    casing, however the key is cased in [modinfo.json]: when the object
    holds the string [id] under a key that lowercases to [name] or
    [modid] (and under every other such key), a query equal to [id] under
    case-insensitive comparison makes the lookup return the record and
    [mod_list] print its dump. *)
Theorem found_by_id (fs : filesystem) (p : path) (self : ModManager.t)
        (m : Mod.t) (k id q : string) :
  Mod.__init__ fs p = Return m ->
  In m (ModManager.mods self) ->
  Forall str_fields (ModManager.mods self) ->
  In (k, JStr id) (Mod._modinfo_raw m) ->
  lower k = "name" \/ lower k = "modid" ->
  (forall k' v', In (k', v') (Mod._modinfo_raw m) -> lower k' = lower k -> v' = JStr id) ->
  lower q = lower id ->
  (exists found,
     ModManager._mods_get q self = Run (Return found) self [] /\ In m found) /\
  (exists out,
     ModManager.mod_list q self = Run (Return tt) self out /\
     incl (dump_lines m) out).
Proof.
  intros Hm Hin Hall Hk Hkey Hsame Hq.
  assert (Hsel : selected q m = true).
  { apply init_return in Hm. destruct Hm as (z & raw & _ & _ & ->). simpl in *.
    assert (Hget : dict_get (Mod.lower_keys raw) (lower k) = Some (JStr id)).
    { rewrite dict_get_lower_keys. now apply last_binding_unique. }
    unfold selected, same_ignoring_case, text_of. rewrite !getattr_lookup. simpl.
    apply orb_true_iff.
    destruct Hkey as [Hkey|Hkey]; rewrite Hkey in Hget; [left | right];
      rewrite Hget; apply String.eqb_eq; exact Hq. }
  assert (Hfound : In m (filter (selected q) (ModManager.mods self)))
    by (apply filter_In; auto).
  split.
  - eexists. split; [apply (mods_get_filter self q Hall) | exact Hfound].
  - eexists. split; [apply (mod_list_found self q _ (mods_get_filter self q Hall))|].
    intros line Hline. apply in_flat_map. eauto.
Qed.

Lemma filterM_raise_inv {A} (c : A -> outcome bool) (l : list A) (e : exn) :
  filterM c l = Raise e -> exists x, In x l /\ c x = Raise e.
Proof.
  induction l as [|x l IH]; simpl; [discriminate|].
  destruct (c x) as [b|e'] eqn:Ex; simpl.
  - destruct (filterM c l) as [ys|e'] eqn:El; simpl; [discriminate|].
    intros [= ->]. destruct (IH eq_refl) as (y & Hy & Hc). eauto.
  - intros [= ->]. eauto.
Qed.

(** What [mod_list] does in every state: it leaves the manager as it
    was, and its only exception is the [AttributeError] of the lookup,
    raised before any line is printed. *)
Lemma mod_list_any (self : ModManager.t) (q : string) :
  (exists out, ModManager.mod_list q self = Run (Return tt) self out) \/
  ModManager.mod_list q self = Run (Raise (AttributeError "lower")) self [].
Proof.
  destruct (filterM (ModManager.matches (lower q)) (ModManager.mods self))
    as [found|e] eqn:E.
  - left. eexists. apply mod_list_found.
    unfold ModManager._mods_get, bind, get, lift. simpl. now rewrite E.
  - right. unfold ModManager.mod_list, ModManager._mods_get, bind, get, lift.
    simpl. rewrite E. simpl.
    apply filterM_raise_inv in E. destruct E as (x & _ & Hx).
    apply matches_raise in Hx. now subst.
Qed.

Lemma command_any (cmd : list string) (mm : ModManager.t) :
  (exists out, command cmd mm = Run (Return tt) mm out) \/
  command cmd mm = Run (Raise (AttributeError "lower")) mm [].
Proof.
  unfold command. destruct cmd as [|cmd_main args]; [left; eexists; reflexivity|].
  destruct (String.eqb cmd_main "list"); [|left; eexists; reflexivity].
  destruct args as [|a args].
  - left. eexists. apply mods_lists_out.
  - apply mod_list_any.
Qed.

Lemma command_returns (cmd : list string) (mm : ModManager.t) :
  Forall str_fields (ModManager.mods mm) ->
  command cmd mm = Run (Return tt) mm (stdout (command cmd mm)).
Proof.
  intros Hall. unfold command. destruct cmd as [|cmd_main args]; [reflexivity|].
  destruct (String.eqb cmd_main "list"); [|reflexivity].
  destruct args as [|a args].
  - now rewrite mods_lists_out.
  - now rewrite (mod_list_found mm _ _ (mods_get_filter mm (join " " (a :: args)) Hall)).
Qed.

End Listing.

(* ================================================================== *)
(** * The command loop and the program *)

Section Program.
Context {L : Lower} {R : Repr}.

(** X1.  The [strip] of the loop changes nothing: the tokens of a line
    are the words of the lowercased line. *)
Theorem tokens_strip (s : string) : tokens s = split (lower s).
Proof.
  unfold tokens, split, strip.
  now rewrite split_from_rstrip, split_from_lstrip.
Qed.

(** X2.  Every token of a line is a word, not empty and without
    whitespace, and the query that [list] builds from the tokens after the
    first splits back into these tokens: it holds the words typed, with
    single spaces between them. *)
Theorem query_words (s cmd_main : string) (args : list string) :
  tokens s = cmd_main :: args ->
  Forall is_word (cmd_main :: args) /\
  split (join " " args) = args.
Proof.
  intros Htok.
  assert (Hw : Forall is_word (cmd_main :: args)).
  { rewrite <- Htok. unfold tokens. apply split_from_words. reflexivity. }
  split; [exact Hw|].
  apply split_join. now inversion Hw.
Qed.

Lemma loop_line (s : string) (rest : list prompt) (mm : ModManager.t) :
  loop (Line s :: rest) mm = bind (command (tokens s)) (fun _ => loop rest) mm.
Proof. reflexivity. Qed.

(** X12.  Whatever the session and whatever the manager holds, the loop
    leaves the manager as it was, and the only exception that can end it
    is the [AttributeError] of a lookup. *)
Theorem loop_keeps_manager (session : list prompt) (mm : ModManager.t) :
  state (loop session mm) = mm /\
  (forall e, result (loop session mm) = Raise e -> e = AttributeError "lower").
Proof.
  induction session as [|[s|] rest IH]; [split; [reflexivity | discriminate]| |exact IH].
  rewrite loop_line. unfold bind.
  destruct (command_any (tokens s) mm) as [[out ->]| ->]; simpl.
  - exact IH.
  - split; [reflexivity | now intros e [= <-]].
Qed.

(** In a state whose records hold strings under [name] and [modid] where
    they hold anything, the loop returns, and prints what each line prints,
    in the order typed. *)
Lemma loop_run (session : list prompt) (mm : ModManager.t) :
  Forall str_fields (ModManager.mods mm) ->
  loop session mm = Run (Return tt) mm (flat_map (printed mm) session).
Proof.
  intros Hall. induction session as [|[s|] rest IH]; [reflexivity| |exact IH].
  rewrite loop_line. unfold bind.
  rewrite (command_returns (tokens s) mm Hall). cbn [result state stdout].
  rewrite IH. reflexivity.
Qed.

(** X13.  When the manager can be built and its records hold strings
    under [name] and [modid] where they hold anything, the program returns
    for every session; it prints what each line of the session prints on
    the manager, in the order typed and nothing for an interrupt, and
    then, last, the exit line. *)
Theorem main_run (fs : filesystem) (session : list prompt) (mm : ModManager.t) :
  ModManager.__init__ fs None = Return mm ->
  Forall str_fields (ModManager.mods mm) ->
  main fs session
  = Run (Return tt) tt
      (flat_map (printed mm) session ++ ["Exiting VSModManager..."])%list.
Proof.
  intros Hinit Hall. unfold main. rewrite Hinit. unfold bind.
  rewrite (loop_run session mm Hall). reflexivity.
Qed.

Lemma command_no_query (cmd : list string) (mm : ModManager.t) :
  is_query cmd = false ->
  command cmd mm = Run (Return tt) mm (stdout (command cmd mm)).
Proof.
  unfold is_query, command. destruct cmd as [|cmd_main [|a args]]; [reflexivity| |].
  - intros _. destruct (String.eqb cmd_main "list"); [|reflexivity].
    now rewrite mods_lists_out.
  - now intros ->.
Qed.

Lemma command_query_raises (cmd : list string) (mm : ModManager.t) (m : Mod.t) :
  is_query cmd = true ->
  In m (ModManager.mods mm) ->
  str_or_absent m "name" = false \/ str_or_absent m "modid" = false ->
  command cmd mm = Run (Raise (AttributeError "lower")) mm [].
Proof.
  unfold is_query, command.
  destruct cmd as [|cmd_main [|a args]]; try discriminate.
  intros -> Hin Hm. unfold ModManager.mod_list, bind.
  now rewrite (mods_get_raises mm (join " " (a :: args)) m Hin Hm).
Qed.

Lemma loop_stops (before : list prompt) (s : string) (after : list prompt)
      (mm : ModManager.t) :
  Forall no_query before ->
  command (tokens s) mm = Run (Raise (AttributeError "lower")) mm [] ->
  loop (before ++ Line s :: after)%list mm
  = Run (Raise (AttributeError "lower")) mm (flat_map (printed mm) before).
Proof.
  intros Hbefore Hs. induction Hbefore as [|[s'|] before Hq _ IH].
  - simpl app. rewrite loop_line. unfold bind. now rewrite Hs.
  - change ((Line s' :: before) ++ Line s :: after)%list
      with (Line s' :: (before ++ Line s :: after))%list.
    rewrite loop_line. unfold bind.
    rewrite (command_no_query (tokens s') mm Hq). cbn [result state stdout].
    rewrite IH. reflexivity.
  - exact IH.
Qed.

(** X14.  When one record of the manager holds something else than a
    string under [name] or [modid], the first line of the session that is
    [list] with a query ends the program with [AttributeError]: what is
    printed is what the lines before it print, and nothing more; the
    failing line, the lines after it and the exit line print nothing. *)
Theorem main_crash (fs : filesystem) (before : list prompt) (s : string)
        (after : list prompt) (mm : ModManager.t) (m : Mod.t) :
  ModManager.__init__ fs None = Return mm ->
  In m (ModManager.mods mm) ->
  str_or_absent m "name" = false \/ str_or_absent m "modid" = false ->
  Forall no_query before ->
  is_query (tokens s) = true ->
  main fs (before ++ Line s :: after)%list
  = Run (Raise (AttributeError "lower")) tt (flat_map (printed mm) before).
Proof.
  intros Hinit Hin Hm Hbefore Hs. unfold main. rewrite Hinit. unfold bind.
  rewrite (loop_stops before s after mm Hbefore
             (command_query_raises (tokens s) mm m Hs Hin Hm)).
  reflexivity.
Qed.

(** X15.  A line that is empty or all whitespace once lowercased, and a
    line whose first word is not [list], print the help text and nothing
    else; they never raise and leave the manager as it was. *)
Theorem help_line (mm : ModManager.t) (s : string) :
  all_space (lower s) = true \/
  (exists word args, tokens s = word :: args /\ word <> "list") ->
  command (tokens s) mm = Run (Return tt) mm [helptext].
Proof.
  intros [Hblank|(word & args & -> & Hword)].
  - unfold tokens. rewrite split_strip.
    apply split_nil in Hblank. now rewrite Hblank.
  - simpl. apply String.eqb_neq in Hword. now rewrite Hword.
Qed.

(** X16.  When the default [Mods] directory cannot be listed, or holds a
    zip file that is no valid archive, the program ends with the exception
    before the first prompt: nothing is printed, whatever the session. *)
Theorem main_startup_failure (fs : filesystem) (session : list prompt) :
  (forall e, iterdir fs "/var/vintagestory/data/Mods" = Raise e ->
     main fs session = Run (Raise e) tt []) /\
  (forall entries f,
     iterdir fs "/var/vintagestory/data/Mods" = Return entries ->
     In f entries -> is_zipfile fs f = true -> is_valid_archive fs f = false ->
     exists e, main fs session = Run (Raise e) tt []).
Proof.
  unfold main. rewrite init_run. simpl.
  change (joinpath ModManager.data_path_default "Mods")
    with "/var/vintagestory/data/Mods".
  split.
  - intros e ->. reflexivity.
  - intros entries f -> Hin Hz Hv.
    destruct (Mod.__init__ fs f) as [m|e0] eqn:Ef.
    + assert (is_valid_archive fs f = true) by (apply init_valid; eauto).
      congruence.
    + destruct (mapM_raise (Mod.__init__ fs) (filter (is_zipfile fs) entries) f e0)
        as [e ->]; auto.
      * apply filter_In. auto.
      * eauto.
Qed.

End Program.

Lemma query_words_witness :
  Forall is_word ["list"; "test"; "mod"] /\
  split (join " " ["test"; "mod"]) = ["test"; "mod"].
Proof.
  apply (@query_words ascii_Lower "  LIST   Test   Mod  " "list" ["test"; "mod"]).
  reflexivity.
Defined.

Lemma found_by_id_witness :
  (exists found,
     ModManager._mods_get "TestMod" (manager_with [mod_a; mod_b])
       = Run (Return found) (manager_with [mod_a; mod_b]) [] /\ In mod_a found) /\
  (exists out,
     @ModManager.mod_list ascii_Lower plain_Repr "TestMod" (manager_with [mod_a; mod_b])
       = Run (Return tt) (manager_with [mod_a; mod_b]) out /\
     incl (@dump_lines plain_Repr mod_a) out).
Proof.
  apply (@found_by_id ascii_Lower plain_Repr (sample_fs [a_zip] NoFile) a_zip
           (manager_with [mod_a; mod_b]) mod_a "ModID" "testmod" "TestMod").
  - reflexivity.
  - simpl. left. reflexivity.
  - repeat constructor.
  - simpl. right. left. reflexivity.
  - right. reflexivity.
  - simpl. intros k' v' [H|[H|[H|[H|[]]]]] Hk; inversion H; subst;
      first [reflexivity | discriminate Hk].
  - reflexivity.
Defined.

Lemma main_run_witness :
  @main ascii_Lower plain_Repr (sample_fs [a_zip; notes_txt; b_zip] NoFile)
        [Line "list"; Interrupt; Line "LIST  bare"]
  = Run (Return tt) tt
      (flat_map (@printed ascii_Lower plain_Repr (manager_with [mod_a; mod_b]))
                [Line "list"; Interrupt; Line "LIST  bare"]
       ++ ["Exiting VSModManager..."])%list.
Proof.
  apply (@main_run ascii_Lower plain_Repr
           (sample_fs [a_zip; notes_txt; b_zip] NoFile)
           [Line "list"; Interrupt; Line "LIST  bare"]
           (manager_with [mod_a; mod_b])).
  - reflexivity.
  - repeat constructor.
Defined.

Lemma main_crash_witness :
  @main ascii_Lower plain_Repr
        (sample_fs [c_zip] (Zip (zip_with (Json (JObj modinfo_numeric)))))
        ([Line "list"; Interrupt] ++ Line "list x" :: [Line "list"])%list
  = Run (Raise (AttributeError "lower")) tt
        ["5 (x) [Version unknown] - No description"].
Proof.
  apply (@main_crash ascii_Lower plain_Repr
           (sample_fs [c_zip] (Zip (zip_with (Json (JObj modinfo_numeric)))))
           [Line "list"; Interrupt] "list x" [Line "list"]
           (manager_with [mod_numeric]) mod_numeric).
  - reflexivity.
  - simpl. left. reflexivity.
  - left. reflexivity.
  - repeat constructor.
  - reflexivity.
Defined.

Lemma help_line_witness :
  @command ascii_Lower plain_Repr (tokens "  ") (manager_with [mod_b])
  = Run (Return tt) (manager_with [mod_b]) [helptext].
Proof.
  apply (@help_line ascii_Lower plain_Repr (manager_with [mod_b]) "  ").
  left. reflexivity.
Defined.

Lemma mod_list_run_witness :
  @ModManager.mod_list ascii_Lower plain_Repr "BARE" (manager_with [mod_a; mod_b])
    = Run (Return tt) (manager_with [mod_a; mod_b])
        (flat_map (@dump_lines plain_Repr) [mod_b]) /\
  ((forall m, In m [mod_a; mod_b] -> selected "BARE" m = false) ->
   @ModManager.mod_list ascii_Lower plain_Repr "BARE" (manager_with [mod_a; mod_b])
     = Run (Return tt) (manager_with [mod_a; mod_b]) []).
Proof.
  apply (@mod_list_run ascii_Lower plain_Repr (manager_with [mod_a; mod_b]) "BARE").
  repeat constructor.
Defined.

Lemma mod_list_raises_witness :
  @ModManager.mod_list ascii_Lower plain_Repr "x" (manager_with [mod_numeric])
  = Run (Raise (AttributeError "lower")) (manager_with [mod_numeric]) [].
Proof.
  apply (@mod_list_raises ascii_Lower plain_Repr (manager_with [mod_numeric]) "x"
           mod_numeric).
  - simpl. left. reflexivity.
  - left. reflexivity.
Defined.
